(** * PyFR polynomial bases ([pyfr/polys.py]): a shallow embedding

    The orthonormal (modal) bases of the seven reference elements, the
    batch evaluation layer on top of them and the Vandermonde / nodal
    layer, embedded as Rocq functions, followed by the properties of
    the specification that can be settled on them.

    Scalars.  The source computes in [mpmath] extended precision and
    projects to double precision.  Here every scalar is a real number
    ([R]) and every operation is exact: rounding is not modelled.
    Python integers (orders, loop indices, Jacobi parameters) are [Z].

    Errors.  Python exceptions are values of [exn]; a computation that
    can raise returns a [result]. *)

From Stdlib Require Import String.
From Stdlib Require Import Reals Lra Lia ZArith List Bool.
From Stdlib Require Import ClassicalEpsilon.
Import ListNotations.

Local Open Scope R_scope.

(* ================================================================= *)
(** ** Exceptions and the error monad *)

Inductive exn : Set :=
| ZeroDivisionError
| TypeError
| KeyError
| ValueError
| AxisError
| LinAlgError.

Inductive result (A : Type) : Type :=
| Ok (a : A)
| Raise (e : exn).

Arguments Ok {A} a.
Arguments Raise {A} e.

Definition bind {A B : Type} (r : result A) (k : A -> result B) : result B :=
  match r with
  | Ok a => k a
  | Raise e => Raise e
  end.

Notation "x <- e ;; k" := (bind e (fun x => k))
  (at level 61, e at next level, right associativity).
Notation "' pat <- e ;; k" := (bind e (fun x => match x with pat => k end))
  (at level 61, pat pattern, e at next level, right associativity).

Definition fmap {A B : Type} (f : A -> B) (r : result A) : result B :=
  x <- r ;; Ok (f x).

(** [[f x for x in l]] where [f] may raise: evaluation stops at the
    first exception. *)
Fixpoint mapM {A B : Type} (f : A -> result B) (l : list A) : result (list B) :=
  match l with
  | [] => Ok []
  | x :: l' => y <- f x ;; ys <- mapM f l' ;; Ok (y :: ys)
  end.

(** [ob = []; for x in l: <body>], where the body appends to [ob]:
    the body is given as the function returning what it appends. *)
Fixpoint for_each {A T : Type} (l : list A) (body : A -> result (list T))
  : result (list T) :=
  match l with
  | [] => Ok []
  | x :: l' => out <- body x ;; rest <- for_each l' body ;; Ok (out ++ rest)
  end.

(* ================================================================= *)
(** ** Python built-ins *)

(** [range(n)]: empty when [n <= 0]. *)
Definition range (n : Z) : list Z :=
  map Z.of_nat (seq 0 (Z.to_nat n)).

Fixpoint enumerate_from {A : Type} (i : Z) (l : list A) : list (Z * A) :=
  match l with
  | [] => []
  | x :: l' => (i, x) :: enumerate_from (i + 1) l'
  end.

(** [enumerate(l)] *)
Definition enumerate {A : Type} (l : list A) : list (Z * A) :=
  enumerate_from 0%Z l.

(** [zip(l1, l2)] *)
Definition zip {A B : Type} (l1 : list A) (l2 : list B) : list (A * B) :=
  combine l1 l2.

(** [x / y] on scalars. *)
Definition pydiv (x y : R) : result R :=
  if Req_dec_T y 0 then Raise ZeroDivisionError else Ok (x / y).

(** [x ** n] with an integer exponent: a negative power of zero is a
    division by zero; [0 ** 0] is [1]. *)
Definition pypow (x : R) (n : Z) : result R :=
  if (n <? 0)%Z
  then (if Req_dec_T x 0 then Raise ZeroDivisionError else Ok (powerRZ x n))
  else Ok (powerRZ x n).

(* ================================================================= *)
(** ** The Jacobi evaluator ([pyfr.mputil]) *)

(** The steps [q, q+1, ...] of the three-term recurrence, [pm1] and
    [pm2] being the two previous values. *)
Fixpoint jacobi_steps (fuel : nat) (q a b : Z) (z pm1 pm2 : R) : list R :=
  match fuel with
  | O => []
  | S fuel' =>
      let apb := (a + b)%Z in
      let bbmaa := (b * b - a * a)%Z in
      let qapbpq := (q * (apb + q))%Z in
      let apbp2q := (apb + 2 * q)%Z in
      let aq := IZR (apbp2q * (apbp2q - 1)) / IZR (2 * qapbpq) in
      let bq := IZR ((apbp2q - 1) * bbmaa)
                / IZR (2 * qapbpq * (apbp2q - 2)) in
      let cq := IZR (apbp2q * (a + q - 1) * (b + q - 1))
                / IZR (qapbpq * (apbp2q - 2)) in
      let pq := (aq * z - bq) * pm1 - cq * pm2 in
      pq :: jacobi_steps fuel' (q + 1) a b z pq pm1
  end.

(** Modelled from the spec: [jacobi] of [pyfr.mputil], which is not
    among the sources.  [jacobi n a b z] is the sequence of the
    [n + 1] values [P_0^(a,b)(z), ..., P_n^(a,b)(z)] obtained by the
    standard three-term recurrence. *)
Definition jacobi (n a b : Z) (z : R) : list R :=
  if (n <? 0)%Z then []
  else if (n =? 0)%Z then [1]
  else
    let p1 := (IZR (a + b + 2) * z + IZR (a - b)) / 2 in
    1 :: p1 :: jacobi_steps (Z.to_nat (n - 1)) 2 a b z p1 1.

(** Modelled from the spec: [jacobi_diff] of [pyfr.mputil], which is
    not among the sources.  [jacobi_diff n a b z] is the sequence of
    the [n + 1] first derivatives of [P_0^(a,b), ..., P_n^(a,b)] at
    [z], by [d/dz P_k^(a,b) = (k + a + b + 1)/2 * P_(k-1)^(a+1,b+1)]. *)
Definition jacobi_diff (n a b : Z) (z : R) : list R :=
  if (n <? 0)%Z then []
  else 0 :: map (fun '(i, jp) => jp * IZR (i + a + b + 2) / 2)
                (enumerate (jacobi (n - 1) (a + 1) (b + 1) z)).

(* ================================================================= *)
(** ** Shape-specific orthonormal bases

    Every generator is the loop nest of the source.  What the source
    appends to [ob] is recorded together with the loop indices in
    force at that moment (the first component of each entry, a ghost
    value); the method itself returns the second components. *)

Definition entry (T : Type) : Type := (list Z * T)%type.

Definition values {T : Type} (t : list (entry T)) : list T := map snd t.

(** The sum of the loop indices of an entry. *)
Definition index_sum (idx : list Z) : Z := fold_right Z.add 0%Z idx.

Definition index_sums {T : Type} (t : list (entry T)) : list Z :=
  map (fun e => index_sum (fst e)) t.

(** [sk = [mp.sqrt(k + 0.5) for k in range(self.order)]] *)
Definition sqrt_half_weights (order : Z) : list R :=
  map (fun k => sqrt (IZR k + 0.5)) (range order).

(** [[c*jp for c, jp in zip(sk, jp_list)]] *)
Definition scale_by (sk jps : list R) : list R :=
  map (fun '(c, jp) => c * jp) (zip sk jps).

(** *** Line *)

Definition line_ortho_loop (order : Z) (p : R) : result (list (entry R)) :=
  let jp := jacobi (order - 1) 0 0 p in
  for_each (enumerate jp) (fun '(i, p) =>
    Ok [([i], sqrt (IZR i + 0.5) * p)]).

Definition line_jac_ortho_loop (order : Z) (p : R)
  : result (list (entry (list R))) :=
  let djp := jacobi_diff (order - 1) 0 0 p in
  for_each (enumerate djp) (fun '(i, p) =>
    Ok [([i], [sqrt (IZR i + 0.5) * p])]).

Definition line_degrees (order : Z) : list Z := range order.

(** *** Collapsed coordinates *)

(** [2*(1 + p)/(1 - q) - 1 if q != 1 else -1]: the coordinate [a] of
    Tri and Pri, and the coordinate [b] of Tet (there with [q], [r]). *)
Definition collapse_simplex (p q : R) : result R :=
  if Req_dec_T q 1 then Ok (-1)
  else (t <- pydiv (2 * (1 + p)) (1 - q) ;; Ok (t - 1)).

(** [-2*(1 + p)/(q + r) - 1 if r != -q else -1]: the coordinate [a]
    of Tet. *)
Definition collapse_tet_a (p q r : R) : result R :=
  if Req_dec_T r (- q) then Ok (-1)
  else (t <- pydiv (-2 * (1 + p)) (q + r) ;; Ok (t - 1)).

(** [2*p/(1 - r) if r != 1 else 0]: the coordinates [a] and [b] of
    Pyr. *)
Definition collapse_pyr (p r : R) : result R :=
  if Req_dec_T r 1 then Ok 0
  else pydiv (2 * p) (1 - r).

(** *** Tri *)

Definition tri_ortho_loop (order : Z) (p q : R) : result (list (entry R)) :=
  a <- collapse_simplex p q ;;
  let b := q in
  for_each (enumerate (jacobi (order - 1) 0 0 a)) (fun '(i, pi) =>
    bi <- pypow (1 - b) i ;;
    let pa := pi * bi in
    for_each (enumerate (jacobi (order - i - 1) (2*i + 1) 0 b))
      (fun '(j, pj) =>
        two <- pypow 2 (i + 1) ;;
        cij <- pydiv (sqrt (IZR ((2*i + 1)*(2*i + 2*j + 2)))) two ;;
        Ok [([i; j], cij * pa * pj)])).

Definition tri_jac_ortho_loop (order : Z) (p q : R)
  : result (list (entry (list R))) :=
  a <- collapse_simplex p q ;;
  let b := q in
  let f := jacobi (order - 1) 0 0 a in
  let df := jacobi_diff (order - 1) 0 0 a in
  for_each (enumerate (zip f df)) (fun '(i, (fi, dfi)) =>
    let g := jacobi (order - i - 1) (2*i + 1) 0 b in
    let dg := jacobi_diff (order - i - 1) (2*i + 1) 0 b in
    for_each (enumerate (zip g dg)) (fun '(j, (gj, dgj)) =>
      two <- pypow 2 (i + 1) ;;
      cij <- pydiv (sqrt (IZR ((2*i + 1)*(2*i + 2*j + 2)))) two ;;
      tmp <- (if (i >? 0)%Z then pypow (1 - b) (i - 1) else Ok 1) ;;
      bi <- pypow (1 - b) i ;;
      let pij := 2 * tmp * dfi * gj in
      let qij := tmp * (- IZR i * fi + (1 + a) * dfi) * gj + bi * fi * dgj in
      Ok [([i; j], [cij * pij; cij * qij])])).

Definition tri_degrees (order : Z) : list Z :=
  flat_map (fun i => map (fun j => (i + j)%Z) (range (order - i)))
           (range order).

(** *** Quad *)

Definition quad_ortho_loop (order : Z) (p q : R) : result (list (entry R)) :=
  let sk := sqrt_half_weights order in
  let pa := scale_by sk (jacobi (order - 1) 0 0 p) in
  let pb := scale_by sk (jacobi (order - 1) 0 0 q) in
  for_each (enumerate pa) (fun '(i, pi) =>
    for_each (enumerate pb) (fun '(j, pj) =>
      Ok [([i; j], pi * pj)])).

Definition quad_jac_ortho_loop (order : Z) (p q : R)
  : result (list (entry (list R))) :=
  let sk := sqrt_half_weights order in
  let pa := scale_by sk (jacobi (order - 1) 0 0 p) in
  let pb := scale_by sk (jacobi (order - 1) 0 0 q) in
  let dpa := scale_by sk (jacobi_diff (order - 1) 0 0 p) in
  let dpb := scale_by sk (jacobi_diff (order - 1) 0 0 q) in
  for_each (enumerate (zip pa dpa)) (fun '(i, (pi, dpi)) =>
    for_each (enumerate (zip pb dpb)) (fun '(j, (pj, dpj)) =>
      Ok [([i; j], [dpi * pj; pi * dpj])])).

Definition quad_degrees (order : Z) : list Z :=
  flat_map (fun i => map (fun j => (i + j)%Z) (range order)) (range order).

(** *** Tet *)

Definition tet_ortho_loop (order : Z) (p q r : R) : result (list (entry R)) :=
  a <- collapse_tet_a p q r ;;
  b <- collapse_simplex q r ;;
  let c := r in
  for_each (enumerate (jacobi (order - 1) 0 0 a)) (fun '(i, pi) =>
    two_i <- pypow 2 (-2*i - 1) ;;
    bi <- pypow (1 - b) i ;;
    let ci := two_i * sqrt (IZR (2*i + 1)) * bi in
    for_each (enumerate (jacobi (order - i - 1) (2*i + 1) 0 b))
      (fun '(j, pj) =>
        two_j <- pypow 2 (- j) ;;
        cpow <- pypow (1 - c) (i + j) ;;
        let cj := sqrt (IZR (i + j + 1)) * two_j * cpow in
        let cij := ci * cj in
        let pij := pi * pj in
        let jp := jacobi (order - i - j - 1) (2*(i + j + 1)) 0 c in
        for_each (enumerate jp) (fun '(k, pk) =>
          let ck := sqrt (IZR (2*(k + j + i) + 3)) in
          Ok [([i; j; k], cij * ck * pij * pk)]))).

Definition tet_jac_ortho_loop (order : Z) (p q r : R)
  : result (list (entry (list R))) :=
  a <- collapse_tet_a p q r ;;
  b <- collapse_simplex q r ;;
  let c := r in
  let f := jacobi (order - 1) 0 0 a in
  let df := jacobi_diff (order - 1) 0 0 a in
  for_each (enumerate (zip f df)) (fun '(i, (fi, dfi)) =>
    two_i <- pypow 2 (-2*i - 1) ;;
    let ci := two_i * sqrt (IZR (2*i + 1)) in
    let g := jacobi (order - i - 1) (2*i + 1) 0 b in
    let dg := jacobi_diff (order - i - 1) (2*i + 1) 0 b in
    for_each (enumerate (zip g dg)) (fun '(j, (gj, dgj)) =>
      two_j <- pypow 2 (- j) ;;
      let cj := sqrt (IZR (i + j + 1)) * two_j in
      let cij := ci * cj in
      let h := jacobi (order - i - j - 1) (2*(i + j + 1)) 0 c in
      let dh := jacobi_diff (order - i - j - 1) (2*(i + j + 1)) 0 c in
      for_each (enumerate (zip h dh)) (fun '(k, (hk, dhk)) =>
        let ck := sqrt (IZR (2*(k + j + i) + 3)) in
        let cijk := cij * ck in
        tmp1 <- (if (i + j >? 0)%Z then pypow (1 - c) (i + j - 1) else Ok 1) ;;
        tmp2 <- (if (i >? 0)%Z
                 then (bi1 <- pypow (1 - b) (i - 1) ;; Ok (tmp1 * bi1))
                 else Ok 1) ;;
        bi <- pypow (1 - b) i ;;
        cpow <- pypow (1 - c) (i + j) ;;
        let pijk := 4 * tmp2 * dfi * gj * hk in
        let qijk := 2 * (tmp2 * (- IZR i * fi + (1 + a) * dfi) * gj
                         + tmp1 * bi * fi * dgj) * hk in
        let rijk :=
          2 * (1 + a) * tmp2 * dfi * gj * hk
          + (1 + b) * tmp1 * bi * fi * dgj * hk
          + cpow * bi * fi * gj * dhk
          - (IZR i * (1 + b) * tmp2 + IZR (i + j) * tmp1 * bi) * fi * gj * hk in
        Ok [([i; j; k], [cijk * pijk; cijk * qijk; cijk * rijk])]))).

Definition tet_degrees (order : Z) : list Z :=
  flat_map (fun i =>
    flat_map (fun j =>
      map (fun k => (i + j + k)%Z) (range (order - i - j)))
      (range (order - i)))
    (range order).

(** *** Pri *)

Definition pri_ortho_loop (order : Z) (p q r : R) : result (list (entry R)) :=
  a <- collapse_simplex p q ;;
  let b := q in
  let c := r in
  pab <- for_each (enumerate (jacobi (order - 1) 0 0 a)) (fun '(i, pi) =>
    bi <- pypow (1 - b) i ;;
    two <- pypow 2 (i + 1) ;;
    ci <- pydiv bi two ;;
    for_each (enumerate (jacobi (order - i - 1) (2*i + 1) 0 b))
      (fun '(j, pj) =>
        let cij := sqrt (IZR ((2*i + 1)*(2*i + 2*j + 2))) * ci in
        Ok [([i; j], cij * pi * pj)])) ;;
  let sk := sqrt_half_weights order in
  let pc := scale_by sk (jacobi (order - 1) 0 0 c) in
  for_each pab (fun '(ij, pij) =>
    for_each (enumerate pc) (fun '(k, pk) =>
      Ok [(ij ++ [k], pij * pk)])).

Definition pri_jac_ortho_loop (order : Z) (p q r : R)
  : result (list (entry (list R))) :=
  a <- collapse_simplex p q ;;
  let b := q in
  let c := r in
  let f := jacobi (order - 1) 0 0 a in
  let df := jacobi_diff (order - 1) 0 0 a in
  pab <- for_each (enumerate (zip f df)) (fun '(i, (fi, dfi)) =>
    let g := jacobi (order - i - 1) (2*i + 1) 0 b in
    let dg := jacobi_diff (order - i - 1) (2*i + 1) 0 b in
    for_each (enumerate (zip g dg)) (fun '(j, (gj, dgj)) =>
      two <- pypow 2 (i + 1) ;;
      cij <- pydiv (sqrt (IZR ((2*i + 1)*(2*i + 2*j + 2)))) two ;;
      tmp <- (if (i >? 0)%Z then pypow (1 - b) (i - 1) else Ok 1) ;;
      bi <- pypow (1 - b) i ;;
      let pij := 2 * tmp * dfi * gj in
      let qij := tmp * (- IZR i * fi + (1 + a) * dfi) * gj + bi * fi * dgj in
      let rij := bi * fi * gj in
      Ok [([i; j], (cij * pij, cij * qij, cij * rij))])) ;;
  let sk := sqrt_half_weights order in
  let hc := scale_by sk (jacobi (order - 1) 0 0 c) in
  let dhc := scale_by sk (jacobi_diff (order - 1) 0 0 c) in
  for_each pab (fun '(ij, (pij, qij, rij)) =>
    for_each (enumerate (zip hc dhc)) (fun '(k, (hk, dhk)) =>
      Ok [(ij ++ [k], [pij * hk; qij * hk; rij * dhk])])).

Definition pri_degrees (order : Z) : list Z :=
  flat_map (fun i =>
    flat_map (fun j =>
      map (fun k => (i + j + k)%Z) (range order))
      (range (order - i)))
    (range order).

(** *** Pyr *)

(** [sk = [mp.mpf(2)**(-k - 0.25)*mp.sqrt(k + 0.5) for k in
    range(self.order)]]: a real power of the positive base 2. *)
Definition pyr_weights (order : Z) : list R :=
  map (fun k => Rpower 2 (- IZR k - 0.25) * sqrt (IZR k + 0.5)) (range order).

Definition pyr_ortho_loop (order : Z) (p q r : R) : result (list (entry R)) :=
  a <- collapse_pyr p r ;;
  b <- collapse_pyr q r ;;
  let c := r in
  let sk := pyr_weights order in
  let pa := scale_by sk (jacobi (order - 1) 0 0 a) in
  let pb := scale_by sk (jacobi (order - 1) 0 0 b) in
  for_each (enumerate pa) (fun '(i, pi) =>
    for_each (enumerate pb) (fun '(j, pj) =>
      cij <- pypow (1 - c) (i + j) ;;
      let pij := pi * pj in
      let pc := jacobi (order - Z.max i j - 1) (2*(i + j + 1)) 0 c in
      for_each (enumerate pc) (fun '(k, pk) =>
        let ck := sqrt (IZR (2*(k + j + i) + 3)) in
        Ok [([i; j; k], cij * ck * pij * pk)]))).

Definition pyr_jac_ortho_loop (order : Z) (p q r : R)
  : result (list (entry (list R))) :=
  a <- collapse_pyr p r ;;
  b <- collapse_pyr q r ;;
  let c := r in
  let sk := pyr_weights order in
  let fc := scale_by sk (jacobi (order - 1) 0 0 a) in
  let gc := scale_by sk (jacobi (order - 1) 0 0 b) in
  let dfc := scale_by sk (jacobi_diff (order - 1) 0 0 a) in
  let dgc := scale_by sk (jacobi_diff (order - 1) 0 0 b) in
  for_each (enumerate (zip fc dfc)) (fun '(i, (fi, dfi)) =>
    for_each (enumerate (zip gc dgc)) (fun '(j, (gj, dgj)) =>
      let h := jacobi (order - Z.max i j - 1) (2*(i + j + 1)) 0 c in
      let dh := jacobi_diff (order - Z.max i j - 1) (2*(i + j + 1)) 0 c in
      for_each (enumerate (zip h dh)) (fun '(k, (hk, dhk)) =>
        let ck := sqrt (IZR (2*(k + j + i) + 3)) in
        tmp <- (if (i + j >? 0)%Z then pypow (1 - c) (i + j - 1) else Ok 1) ;;
        cpow <- pypow (1 - c) (i + j) ;;
        let pijk := 2 * tmp * dfi * gj * hk in
        let qijk := 2 * tmp * fi * dgj * hk in
        let rijk := tmp * (a * dfi * gj + b * fi * dgj - IZR (i + j) * fi * gj) * hk
                    + cpow * fi * gj * dhk in
        Ok [([i; j; k], [ck * pijk; ck * qijk; ck * rijk])]))).

Definition pyr_degrees (order : Z) : list Z :=
  flat_map (fun i =>
    flat_map (fun j =>
      map (fun k => (i + j + k)%Z) (range (order - Z.max i j)))
      (range order))
    (range order).

(** *** Hex *)

Definition hex_ortho_loop (order : Z) (p q r : R) : result (list (entry R)) :=
  let sk := sqrt_half_weights order in
  let pa := scale_by sk (jacobi (order - 1) 0 0 p) in
  let pb := scale_by sk (jacobi (order - 1) 0 0 q) in
  let pc := scale_by sk (jacobi (order - 1) 0 0 r) in
  for_each (enumerate pa) (fun '(i, pi) =>
    for_each (enumerate pb) (fun '(j, pj) =>
      for_each (enumerate pc) (fun '(k, pk) =>
        Ok [([i; j; k], pi * pj * pk)]))).

Definition hex_jac_ortho_loop (order : Z) (p q r : R)
  : result (list (entry (list R))) :=
  let sk := sqrt_half_weights order in
  let pa := scale_by sk (jacobi (order - 1) 0 0 p) in
  let pb := scale_by sk (jacobi (order - 1) 0 0 q) in
  let pc := scale_by sk (jacobi (order - 1) 0 0 r) in
  let dpa := scale_by sk (jacobi_diff (order - 1) 0 0 p) in
  let dpb := scale_by sk (jacobi_diff (order - 1) 0 0 q) in
  let dpc := scale_by sk (jacobi_diff (order - 1) 0 0 r) in
  for_each (enumerate (zip pa dpa)) (fun '(i, (pi, dpi)) =>
    for_each (enumerate (zip pb dpb)) (fun '(j, (pj, dpj)) =>
      for_each (enumerate (zip pc dpc)) (fun '(k, (pk, dpk)) =>
        Ok [([i; j; k], [dpi * pj * pk; pi * dpj * pk; pi * pj * dpk])]))).

Definition hex_degrees (order : Z) : list Z :=
  flat_map (fun i =>
    flat_map (fun j =>
      map (fun k => (i + j + k)%Z) (range order))
      (range order))
    (range order).

(* ================================================================= *)
(** ** Basis objects and method dispatch *)

(** The seven subclasses of [BasePolyBasis]. *)
Inductive shape : Set := Line | Tri | Quad | Tet | Pri | Pyr | Hex.

(** The class attribute [name]. *)
Definition name (s : shape) : string :=
  match s with
  | Line => "line"
  | Tri => "tri"
  | Quad => "quad"
  | Tet => "tet"
  | Pri => "pri"
  | Pyr => "pyr"
  | Hex => "hex"
  end.

(** The number of reference coordinates of a shape: the arity of its
    [ortho_basis_at_mp] and the length of each entry of its
    [jac_ortho_basis_at_mp]. *)
Definition ndims (s : shape) : nat :=
  match s with
  | Line => 1
  | Tri | Quad => 2
  | Tet | Pri | Pyr | Hex => 3
  end.

(** A Python value passed as an evaluation point or a coordinate: a
    scalar, or a tuple (any iterable) of values. *)
#[warnings="-register-all"] Inductive pyval : Type :=
| Num (x : R)
| Tup (xs : list pyval).

(** [isinstance(v, Iterable)] *)
Definition is_iterable (v : pyval) : bool :=
  match v with
  | Num _ => false
  | Tup _ => true
  end.

(** The argument list of a call that unpacks [p] (star-argument). *)
Definition splat (p : pyval) : result (list pyval) :=
  match p with
  | Num _ => Raise TypeError
  | Tup xs => Ok xs
  end.

(** An instance: its class and the two attributes set by [__init__]. *)
Record basis : Type := mkBasis {
  cls : shape;
  order : Z;
  pts : list pyval
}.

(** The loop nest behind [self.ortho_basis_at_mp], called on the
    unpacked arguments [args]: a call with
    the wrong number of arguments, or with a coordinate that is not a
    scalar, is a [TypeError]. *)
Definition ortho_loop (s : shape) (order : Z) (args : list pyval)
  : result (list (entry R)) :=
  match s, args with
  | Line, [Num p] => line_ortho_loop order p
  | Tri, [Num p; Num q] => tri_ortho_loop order p q
  | Quad, [Num p; Num q] => quad_ortho_loop order p q
  | Tet, [Num p; Num q; Num r] => tet_ortho_loop order p q r
  | Pri, [Num p; Num q; Num r] => pri_ortho_loop order p q r
  | Pyr, [Num p; Num q; Num r] => pyr_ortho_loop order p q r
  | Hex, [Num p; Num q; Num r] => hex_ortho_loop order p q r
  | _, _ => Raise TypeError
  end.

Definition jac_ortho_loop (s : shape) (order : Z) (args : list pyval)
  : result (list (entry (list R))) :=
  match s, args with
  | Line, [Num p] => line_jac_ortho_loop order p
  | Tri, [Num p; Num q] => tri_jac_ortho_loop order p q
  | Quad, [Num p; Num q] => quad_jac_ortho_loop order p q
  | Tet, [Num p; Num q; Num r] => tet_jac_ortho_loop order p q r
  | Pri, [Num p; Num q; Num r] => pri_jac_ortho_loop order p q r
  | Pyr, [Num p; Num q; Num r] => pyr_jac_ortho_loop order p q r
  | Hex, [Num p; Num q; Num r] => hex_jac_ortho_loop order p q r
  | _, _ => Raise TypeError
  end.

(** [self.ortho_basis_at_mp], called on the unpacked [args]. *)
Definition ortho_basis_at_mp (b : basis) (args : list pyval)
  : result (list R) :=
  fmap values (ortho_loop (cls b) (order b) args).

(** [self.jac_ortho_basis_at_mp], called on the unpacked [args]. *)
Definition jac_ortho_basis_at_mp (b : basis) (args : list pyval)
  : result (list (list R)) :=
  fmap values (jac_ortho_loop (cls b) (order b) args).

(** The lazy property [degrees]. *)
Definition degrees (b : basis) : list Z :=
  match cls b with
  | Line => line_degrees (order b)
  | Tri => tri_degrees (order b)
  | Quad => quad_degrees (order b)
  | Tet => tet_degrees (order b)
  | Pri => pri_degrees (order b)
  | Pyr => pyr_degrees (order b)
  | Hex => hex_degrees (order b)
  end.

(* ================================================================= *)
(** ** The factory *)

(** The subclasses of [BasePolyBasis], in definition order. *)
Definition subclasses : list shape := [Line; Tri; Quad; Tet; Pri; Pyr; Hex].

(** Modelled from the spec: [subclass_where] of [pyfr.util], which is
    not among the sources.  It resolves a name to the subclass whose
    [name] attribute equals it; an unknown name fails with a lookup
    error. *)
Definition subclass_where (nm : string) : result shape :=
  match find (fun s => String.eqb (name s) nm) subclasses with
  | Some s => Ok s
  | None => Raise KeyError
  end.

Definition get_polybasis (nm : string) (order : Z) (pts : list pyval)
  : result basis :=
  c <- subclass_where nm ;;
  Ok (mkBasis c order pts).

(* ================================================================= *)
(** ** NumPy arrays

    An array of one, two or three dimensions: its shape and its
    entries as nested lists, outermost axis first.  The shape is kept
    explicitly because nested lists lose it when an axis is empty. *)

Inductive ndarray : Type :=
| Arr1 (xs : list R)
| Arr2 (n0 n1 : nat) (rows : list (list R))
| Arr3 (n0 n1 n2 : nat) (cells : list (list (list R))).

Definition shape_of (a : ndarray) : list nat :=
  match a with
  | Arr1 xs => [length xs]
  | Arr2 n0 n1 _ => [n0; n1]
  | Arr3 n0 n1 n2 _ => [n0; n1; n2]
  end.

(** Entry [k] of a one-dimensional array, [i, k] of a two-dimensional
    one and [i, j, k] of a three-dimensional one. *)
Definition get1 (a : ndarray) (k : nat) : R :=
  match a with Arr1 xs => nth k xs 0 | _ => 0 end.

Definition get2 (a : ndarray) (i k : nat) : R :=
  match a with Arr2 _ _ rows => nth k (nth i rows []) 0 | _ => 0 end.


(** [np.array(P, dtype=np.float)] for a list of lists of scalars: the
    empty list is the one-dimensional empty array; rows of unequal
    length are refused. *)
Definition np_array2 (P : list (list R)) : result ndarray :=
  match P with
  | [] => Ok (Arr1 [])
  | r0 :: _ =>
      if forallb (fun r => Nat.eqb (length r) (length r0)) P
      then Ok (Arr2 (length P) (length r0) P)
      else Raise ValueError
  end.

(** [np.array(J, dtype=np.float)] for a list of lists of lists of
    scalars.  When the inner lists are all empty the result has two
    dimensions only. *)
Definition np_array3 (J : list (list (list R))) : result ndarray :=
  match J with
  | [] => Ok (Arr1 [])
  | [] :: _ =>
      if forallb (fun m => Nat.eqb (length m) 0) J
      then Ok (Arr2 (length J) 0 (map (fun _ => []) J))
      else Raise ValueError
  | (v0 :: m0) :: _ =>
      if forallb (fun m => Nat.eqb (length m) (S (length m0))
                           && forallb (fun v => Nat.eqb (length v) (length v0)) m) J
      then Ok (Arr3 (length J) (S (length m0)) (length v0) J)
      else Raise ValueError
  end.

(** Column [j] of a list of rows. *)
Definition col (j : nat) (rows : list (list R)) : list R :=
  map (fun r => nth j r 0) rows.

(** The transpose of [rows], which has [n1] columns. *)
Definition transpose (n1 : nat) (rows : list (list R)) : list (list R) :=
  map (fun j => col j rows) (seq 0 n1).

(** Axes 0 and 2 of [cells], of shape [(n0, n1, n2)], exchanged. *)
Definition swap02 (n0 n1 n2 : nat) (cells : list (list (list R)))
  : list (list (list R)) :=
  map (fun k =>
    map (fun j =>
      map (fun i => nth k (nth j (nth i cells []) []) 0) (seq 0 n0))
      (seq 0 n1))
    (seq 0 n2).

(** [a.T]: the axes reversed. *)
Definition T (a : ndarray) : ndarray :=
  match a with
  | Arr1 xs => Arr1 xs
  | Arr2 n0 n1 rows => Arr2 n1 n0 (transpose n1 rows)
  | Arr3 n0 n1 n2 cells => Arr3 n2 n1 n0 (swap02 n0 n1 n2 cells)
  end.

(** [a.swapaxes(0, 2)]: an array of fewer than three dimensions has
    no axis 2. *)
Definition swapaxes02 (a : ndarray) : result ndarray :=
  match a with
  | Arr3 n0 n1 n2 cells => Ok (Arr3 n2 n1 n0 (swap02 n0 n1 n2 cells))
  | _ => Raise AxisError
  end.

(** *** Matrices as lists of rows *)

Definition dot (u v : list R) : R :=
  fold_right Rplus 0 (map (fun '(x, y) => x * y) (combine u v)).

(** The product of [A] with [B], [B] having [k] columns. *)
Definition mmul (k : nat) (A B : list (list R)) : list (list R) :=
  map (fun row => map (fun j => dot row (col j B)) (seq 0 k)) A.

Definition identity (n : nat) : list (list R) :=
  map (fun i => map (fun j => if Nat.eqb i j then 1 else 0) (seq 0 n))
      (seq 0 n).

Definition wf_mat (n k : nat) (M : list (list R)) : Prop :=
  length M = n /\ Forall (fun r => length r = k) M.

Definition is_inverse (n : nat) (A A' : list (list R)) : Prop :=
  wf_mat n n A' /\ mmul n A' A = identity n /\ mmul n A A' = identity n.

(** A square matrix with a two-sided inverse. *)
Definition nonsingular (n : nat) (A : list (list R)) : Prop :=
  wf_mat n n A /\ exists A', is_inverse n A A'.

Definition inverse (n : nat) (A : list (list R)) : list (list R) :=
  epsilon (inhabits []) (is_inverse n A).

(** [np.linalg.solve(a, b)]: [a] has to be a square matrix (else
    [LinAlgError]), the leading dimension of the right-hand side has
    to agree with it (else [ValueError]), and [a] has to be
    nonsingular (else [LinAlgError]); the result is the solution [x]
    of [a x = b], that is [a^-1 b].  A three-dimensional [b] is a
    stack of right-hand sides. *)
Definition solve (a b : ndarray) : result ndarray :=
  match a with
  | Arr2 n m A =>
      if negb (Nat.eqb n m) then Raise LinAlgError
      else
        let check (n' : nat) (x : ndarray) : result ndarray :=
          if negb (Nat.eqb n' n) then Raise ValueError
          else if excluded_middle_informative (nonsingular n A) then Ok x
          else Raise LinAlgError in
        match b with
        | Arr1 v =>
            check (length v) (Arr1 (map (fun row => dot row v) (inverse n A)))
        | Arr2 n' k B =>
            check n' (Arr2 n k (mmul k (inverse n A) B))
        | Arr3 d n' k Bs =>
            check n' (Arr3 d n k (map (mmul k (inverse n A)) Bs))
        end
  | _ => Raise LinAlgError
  end.

(* ================================================================= *)
(** ** The evaluation layer and the nodal layer of [BasePolyBasis] *)

Section Evaluation.

(** Modelled from the spec: the decorator [chop] of [pyfr.nputil],
    which is not among the sources, sets every entry of the returned
    array whose magnitude is below a fixed small tolerance to zero.
    The tolerance is the parameter [tol]. *)
Variable tol : R.

Definition chop_scalar (x : R) : R :=
  if Rlt_dec (Rabs x) tol then 0 else x.

Definition chop (a : ndarray) : ndarray :=
  match a with
  | Arr1 xs => Arr1 (map chop_scalar xs)
  | Arr2 n0 n1 rows => Arr2 n0 n1 (map (map chop_scalar) rows)
  | Arr3 n0 n1 n2 cells => Arr3 n0 n1 n2 (map (map (map chop_scalar)) cells)
  end.

(** [if len(pts) and not isinstance(pts[0], Iterable):
        pts = [(p,) for p in pts]] *)
Definition promote (pts : list pyval) : list pyval :=
  match pts with
  | [] => pts
  | p0 :: _ =>
      if negb (is_iterable p0) then map (fun p => Tup [p]) pts else pts
  end.

Definition ortho_basis_at (b : basis) (pts : list pyval) : result ndarray :=
  let pts := promote pts in
  P <- mapM (fun p => args <- splat p ;; ortho_basis_at_mp b args) pts ;;
  P <- np_array2 P ;;
  Ok (chop (T P)).

Definition jac_ortho_basis_at (b : basis) (pts : list pyval)
  : result ndarray :=
  let pts := promote pts in
  J <- mapM (fun p => args <- splat p ;; jac_ortho_basis_at_mp b args) pts ;;
  J <- np_array3 J ;;
  J <- swapaxes02 J ;;
  Ok (chop J).

(** The lazy property [vdm]: computed on first use and cached; the
    computation is deterministic, so the property is its value. *)
Definition vdm (b : basis) : result ndarray :=
  ortho_basis_at b (pts b).

Definition nodal_basis_at (b : basis) (epts : list pyval) : result ndarray :=
  v <- vdm b ;;
  o <- ortho_basis_at b epts ;;
  x <- solve v o ;;
  Ok (chop (T x)).

Definition jac_nodal_basis_at (b : basis) (epts : list pyval)
  : result ndarray :=
  v <- vdm b ;;
  j <- jac_ortho_basis_at b epts ;;
  x <- solve v j ;;
  Ok (chop x).

End Evaluation.

(* ================================================================= *)
(** ** Vocabulary of the statements *)

(** A point given as a tuple of scalar coordinates, and a list of
    such points. *)
Definition coords (xs : list R) : list pyval := map Num xs.

Definition tuples (cs : list (list R)) : list pyval :=
  map (fun c => Tup (coords c)) cs.

(** The value of a computation known not to raise. *)
Definition unwrap {A : Type} (d : A) (r : result A) : A :=
  match r with
  | Ok a => a
  | Raise _ => d
  end.

(** A loop nest succeeds; the index sums of what it appends are
    [degs]; every appended entry satisfies [Q]. *)
Definition loop_spec {T : Type} (r : result (list (entry T)))
           (degs : list Z) (Q : entry T -> Prop) : Prop :=
  exists t, r = Ok t /\ index_sums t = degs /\ Forall Q t.

Definition any {T : Type} (_ : T) : Prop := True.

Definition grad_len (n : nat) (e : entry (list R)) : Prop :=
  length (snd e) = n.

(** The values and the gradients at one point (the empty list should
    the method raise). *)
Definition mp_row (b : basis) (c : list R) : list R :=
  unwrap [] (ortho_basis_at_mp b (coords c)).

Definition mp_grads (b : basis) (c : list R) : list (list R) :=
  unwrap [] (jac_ortho_basis_at_mp b (coords c)).

(** Every point has as many coordinates as the shape has reference
    coordinates. *)
Definition arity_ok (b : basis) (cs : list (list R)) : Prop :=
  Forall (fun c => length c = ndims (cls b)) cs.

(** The number of basis functions of an instance. *)
Definition nbasis (b : basis) : nat := length (degrees b).

(** The orthonormalised Legendre polynomials of degree 0 and 1 on
    [[-1, 1]]: [sqrt(n + 1/2) * P_n(x)] with [P_0 = 1], [P_1 = x]. *)
Definition legendre01 (n : nat) (x : R) : R :=
  match n with
  | O => 1
  | S _ => x
  end.

Definition orthonormal_legendre01 (n : nat) (x : R) : R :=
  sqrt (INR n + / 2) * legendre01 n x.

(** *** Concrete inputs *)

(** A tolerance for the closed examples: the decimal resolution of
    double precision. *)
Definition double_resolution : R := / 10 ^ 15.

(** The three points [-1, 0, 1] of the line, as Python scalars. *)
Definition line_pts3 : list pyval := map Num [-1; 0; 1].

(** [get_polybasis('line', 2, [-1, 0, 1])] *)
Definition line2 : basis := mkBasis Line 2 line_pts3.

(** [get_polybasis('line', 2, [-1, 1])] *)
Definition line2_sq : basis := mkBasis Line 2 (map Num [-1; 1]).



(** The values of the two orthonormalised Legendre polynomials at
    [-1, 0, 1], one row per polynomial. *)
Definition line2_values : list (list R) :=
  map (fun n => map (orthonormal_legendre01 n) [-1; 0; 1]) [0; 1]%nat.

(** The same at the two points [-1, 1], and the inverse of that
    matrix. *)
Definition line2_sq_vdm : list (list R) :=
  map (fun n => map (orthonormal_legendre01 n) [-1; 1]) [0; 1]%nat.

Definition line2_sq_inv : list (list R) :=
  [[/ (2 * sqrt (/ 2)); - / (2 * sqrt (1 + / 2))];
   [/ (2 * sqrt (/ 2)); / (2 * sqrt (1 + / 2))]].


Definition tri_pts3 : list (list R) := [[-1; -1]; [1; -1]; [-1; 1]].

(** [get_polybasis('tet', 2)] *)
Definition tet2 : basis := mkBasis Tet 2 [].

(** [get_polybasis('tri', 2, pts)] with the three vertices. *)
Definition tri2 : basis := mkBasis Tri 2 (tuples tri_pts3).

(* ================================================================= *)
(** ** Vocabulary of the further properties *)

(** The number of basis functions of order [n] on each shape. *)
Definition expected_nbasis (s : shape) (n : Z) : Z :=
  match s with
  | Line => n
  | Tri => n * (n + 1) / 2
  | Quad => n * n
  | Tet => n * (n + 1) * (n + 2) / 6
  | Pri => n * n * (n + 1) / 2
  | Pyr => n * (n + 1) * (2 * n + 1) / 6
  | Hex => n * n * n
  end%Z.

(** The largest entry of [degrees] for order [n]. *)
Definition max_degree (s : shape) (n : Z) : Z :=
  match s with
  | Line | Tri | Tet => n - 1
  | Quad | Pri | Pyr => 2 * (n - 1)
  | Hex => 3 * (n - 1)
  end%Z.

(** [[a*b for a in u for b in v]] *)
Definition outer (u v : list R) : list R :=
  flat_map (fun a => map (fun b => a * b) v) u.

(** Entry [m] of the column sums of a matrix with [k] columns. *)
Definition column_sum (X : list (list R)) (m : nat) : R :=
  fold_right Rplus 0 (col m X).

(** The values of the triangle basis, entry by entry. *)
Definition tri_value (b : R) (i j : Z) (pi pj : R) : R :=
  sqrt (IZR ((2*i + 1)*(2*i + 2*j + 2))) / powerRZ 2 (i + 1)
  * (pi * powerRZ (1 - b) i) * pj.

Definition tri_values_at (ord : Z) (a b : R) : list R :=
  flat_map (fun '(i, pi) =>
    flat_map (fun '(j, pj) => [tri_value b i j pi pj])
      (enumerate (jacobi (ord - i - 1) (2*i + 1) 0 b)))
    (enumerate (jacobi (ord - 1) 0 0 a)).

(** The square of the first basis function of each shape: the
    reciprocal of the measure of the reference element. *)
Definition constant_mode_sq (s : shape) : R :=
  match s with
  | Line | Tri => 1 / 2
  | Quad | Pri => 1 / 4
  | Tet => 3 / 4
  | Pyr => 3 / 8
  | Hex => 1 / 8
  end.

(** A computation that, if it returns, returns a list starting with
    [e]. *)
Definition head_is {T : Type} (r : result (list T)) (e : T) : Prop :=
  forall t, r = Ok t -> exists t', t = e :: t'.

(** The points [-1, 1] and [-1, 0, 1] of the line as coordinate
    tuples. *)
Definition line_cs2 : list (list R) := [[-1]; [1]].

Definition line_cs3 : list (list R) := [[-1]; [0]; [1]].

(* ================================================================= *)
(** * Properties *)

(** ** The error monad and the loops *)

Lemma bind_Ok {A B : Type} (a : A) (k : A -> result B) : bind (Ok a) k = k a.
Proof. reflexivity. Qed.

Lemma mapM_Ok {A B : Type} (f : A -> result B) (g : A -> B) (l : list A) :
  (forall x, In x l -> f x = Ok (g x)) -> mapM f l = Ok (map g l).
Proof.
  induction l as [|x l IH]; intros Hf; simpl; [reflexivity|].
  rewrite (Hf x (or_introl eq_refl)); simpl.
  rewrite IH by (intros y Hy; apply Hf; now right).
  reflexivity.
Qed.

(** A loop whose body succeeds on every element succeeds; a function
    [d] of the appended entries and an invariant [Q] of them carry
    over from the body to the whole loop. *)
Lemma for_each_spec {A T K D : Type} (l : list A)
      (body : A -> result (list T)) (d : T -> D) (Q : T -> Prop)
      (key : A -> K) (h : K -> list D) :
  (forall x, In x l ->
     exists out, body x = Ok out /\ map d out = h (key x) /\ Forall Q out) ->
  exists out, for_each l body = Ok out
              /\ map d out = flat_map h (map key l) /\ Forall Q out.
Proof.
  induction l as [|x l IH]; intros Hb; simpl.
  - exists []; repeat split; constructor.
  - destruct (Hb x (or_introl eq_refl)) as (o1 & E1 & D1 & Q1).
    destruct IH as (o2 & E2 & D2 & Q2).
    { intros y Hy; apply Hb; now right. }
    exists (o1 ++ o2). rewrite E1, E2; simpl.
    repeat split.
    + now rewrite map_app, D1, D2.
    + apply Forall_app; now split.
Qed.

(** ** Python built-ins *)

Lemma length_range (n : Z) : length (range n) = Z.to_nat n.
Proof. unfold range. now rewrite length_map, length_seq. Qed.

Lemma range_of_nat_S (n : nat) :
  range (Z.of_nat (S n)) = range (Z.of_nat n) ++ [Z.of_nat n].
Proof.
  unfold range. rewrite !Nat2Z.id, seq_S, map_app. reflexivity.
Qed.

Lemma In_range (n i : Z) : In i (range n) <-> (0 <= i < n)%Z.
Proof.
  unfold range. rewrite in_map_iff. split.
  - intros (k & <- & Hk). apply in_seq in Hk. lia.
  - intros Hi. exists (Z.to_nat i). split; [lia|]. apply in_seq. lia.
Qed.

Lemma map_fst_enumerate_from {A : Type} (l : list A) (i : Z) :
  map fst (enumerate_from i l)
  = map (fun k => (i + Z.of_nat k)%Z) (seq 0 (length l)).
Proof.
  revert i; induction l as [|x l IH]; intros i; simpl; [reflexivity|].
  f_equal; [f_equal; lia|].
  rewrite IH, <- seq_shift, map_map.
  apply map_ext; intros k; lia.
Qed.

Lemma map_fst_enumerate {A : Type} (l : list A) :
  map fst (enumerate l) = range (Z.of_nat (length l)).
Proof.
  unfold enumerate, range. rewrite map_fst_enumerate_from, Nat2Z.id.
  reflexivity.
Qed.

Lemma map_snd_enumerate_from {A : Type} (l : list A) (i : Z) :
  map snd (enumerate_from i l) = l.
Proof.
  revert i; induction l as [|x l IH]; intros i; simpl; [reflexivity|].
  now rewrite IH.
Qed.

Lemma length_enumerate {A : Type} (l : list A) :
  length (enumerate l) = length l.
Proof.
  rewrite <- (length_map snd). unfold enumerate.
  now rewrite map_snd_enumerate_from.
Qed.

Lemma In_enumerate {A : Type} (l : list A) (i : Z) (x : A) :
  In (i, x) (enumerate l) -> (0 <= i < Z.of_nat (length l))%Z.
Proof.
  intros H. apply In_range. rewrite <- map_fst_enumerate.
  change i with (fst (i, x)). now apply in_map.
Qed.

Lemma length_zip {A B : Type} (l1 : list A) (l2 : list B) :
  length (zip l1 l2) = Nat.min (length l1) (length l2).
Proof. unfold zip. apply length_combine. Qed.

(** ** Scalars *)

Lemma pydiv_nonzero (x y : R) : y <> 0 -> pydiv x y = Ok (x / y).
Proof. intros H. unfold pydiv. now destruct (Req_dec_T y 0). Qed.

Lemma pydiv_zero (x : R) : pydiv x 0 = Raise ZeroDivisionError.
Proof. unfold pydiv. now destruct (Req_dec_T 0 0). Qed.

Lemma pypow_nonneg (x : R) (n : Z) :
  (0 <= n)%Z -> pypow x n = Ok (powerRZ x n).
Proof.
  intros H. unfold pypow. destruct (Z.ltb_spec n 0); [lia|reflexivity].
Qed.

Lemma pypow_nonzero (x : R) (n : Z) : x <> 0 -> pypow x n = Ok (powerRZ x n).
Proof.
  intros H. unfold pypow.
  destruct (n <? 0)%Z; [|reflexivity]. now destruct (Req_dec_T x 0).
Qed.

Lemma powerRZ_2_nonzero (n : Z) : powerRZ 2 n <> 0.
Proof. apply powerRZ_NOR. lra. Qed.

(** ** The Jacobi evaluator *)

Lemma length_jacobi_steps (fuel : nat) (q a b : Z) (z pm1 pm2 : R) :
  length (jacobi_steps fuel q a b z pm1 pm2) = fuel.
Proof.
  revert q pm1 pm2; induction fuel as [|f IH]; intros; simpl; [reflexivity|].
  now rewrite IH.
Qed.

Lemma length_jacobi (n a b : Z) (z : R) :
  length (jacobi n a b z) = Z.to_nat (n + 1).
Proof.
  unfold jacobi.
  destruct (Z.ltb_spec n 0); [simpl; lia|].
  destruct (Z.eqb_spec n 0); [subst; reflexivity|].
  simpl. rewrite length_jacobi_steps. lia.
Qed.

Lemma length_jacobi_diff (n a b : Z) (z : R) :
  length (jacobi_diff n a b z) = Z.to_nat (n + 1).
Proof.
  unfold jacobi_diff.
  destruct (Z.ltb_spec n 0); [simpl; lia|].
  simpl. rewrite length_map, length_enumerate, length_jacobi. lia.
Qed.


Lemma length_sqrt_half_weights (order : Z) :
  length (sqrt_half_weights order) = Z.to_nat order.
Proof. unfold sqrt_half_weights. now rewrite length_map, length_range. Qed.

Lemma length_pyr_weights (order : Z) :
  length (pyr_weights order) = Z.to_nat order.
Proof. unfold pyr_weights. now rewrite length_map, length_range. Qed.

Lemma length_scale_by (sk jps : list R) :
  length (scale_by sk jps) = Nat.min (length sk) (length jps).
Proof. unfold scale_by. now rewrite length_map, length_zip. Qed.

Ltac list_len :=
  rewrite ?length_zip, ?length_scale_by, ?length_jacobi, ?length_jacobi_diff,
    ?length_sqrt_half_weights, ?length_pyr_weights, ?length_range;
  lia.

Lemma range_to_nat (n : Z) : range (Z.of_nat (Z.to_nat n)) = range n.
Proof. unfold range. now rewrite Nat2Z.id. Qed.

Lemma flat_map_singleton {A B : Type} (f : A -> B) (l : list A) :
  flat_map (fun x => [f x]) l = map f l.
Proof. induction l; simpl; congruence. Qed.

Lemma flat_map_flat_map {A B C : Type} (g : A -> list B) (h : B -> list C)
      (l : list A) :
  flat_map h (flat_map g l) = flat_map (fun x => flat_map h (g x)) l.
Proof.
  induction l as [|x l IH]; simpl; [reflexivity|].
  now rewrite flat_map_app, IH.
Qed.

Lemma flat_map_map {A B C : Type} (f : A -> B) (h : B -> list C)
      (l : list A) :
  flat_map h (map f l) = flat_map (fun x => h (f x)) l.
Proof. induction l; simpl; congruence. Qed.

Lemma index_sum_app (idx : list Z) (k : Z) :
  index_sum (idx ++ [k]) = (index_sum idx + k)%Z.
Proof. induction idx; simpl; lia. Qed.

Lemma length_index_sums {T : Type} (t : list (entry T)) :
  length (index_sums t) = length (values t).
Proof. unfold index_sums, values. now rewrite !length_map. Qed.

(** The loop [for i, x in enumerate(l)] over a list of [n] elements. *)
Lemma for_each_enumerate_spec {A T : Type} (l : list A) (n : Z)
      (body : Z * A -> result (list (entry T))) (Q : entry T -> Prop)
      (h : Z -> list Z) :
  length l = Z.to_nat n ->
  (forall i x, (0 <= i < n)%Z ->
     exists out, body (i, x) = Ok out /\ index_sums out = h i /\ Forall Q out) ->
  exists out, for_each (enumerate l) body = Ok out
              /\ index_sums out = flat_map h (range n) /\ Forall Q out.
Proof.
  intros Hlen Hb.
  rewrite <- range_to_nat, <- Hlen, <- map_fst_enumerate.
  apply for_each_spec with (key := fst).
  intros [i x] Hin. simpl. apply Hb.
  apply In_enumerate in Hin. lia.
Qed.

(** The same loop when the body appends exactly one entry. *)
Lemma for_each_enumerate_single {A T : Type} (l : list A) (n : Z)
      (body : Z * A -> result (list (entry T))) (Q : entry T -> Prop)
      (f : Z -> Z) :
  length l = Z.to_nat n ->
  (forall i x, (0 <= i < n)%Z ->
     exists e, body (i, x) = Ok [e] /\ index_sum (fst e) = f i /\ Q e) ->
  exists out, for_each (enumerate l) body = Ok out
              /\ index_sums out = map f (range n) /\ Forall Q out.
Proof.
  intros Hlen Hb. rewrite <- flat_map_singleton.
  apply for_each_enumerate_spec; [assumption|].
  intros i x Hi. destruct (Hb i x Hi) as (e & E & D & HQ).
  exists [e]. repeat split; [assumption| |].
  - simpl. now rewrite D.
  - now constructor.
Qed.

(** ** Collapsed coordinates *)

Lemma collapse_simplex_value (p q : R) :
  collapse_simplex p q
  = Ok (if Req_dec_T q 1 then -1 else 2 * (1 + p) / (1 - q) - 1).
Proof.
  unfold collapse_simplex. destruct (Req_dec_T q 1); [reflexivity|].
  rewrite pydiv_nonzero by lra. reflexivity.
Qed.

Lemma collapse_tet_a_value (p q r : R) :
  collapse_tet_a p q r
  = Ok (if Req_dec_T r (- q) then -1 else -2 * (1 + p) / (q + r) - 1).
Proof.
  unfold collapse_tet_a. destruct (Req_dec_T r (- q)); [reflexivity|].
  rewrite pydiv_nonzero by lra. reflexivity.
Qed.

Lemma collapse_pyr_value (p r : R) :
  collapse_pyr p r = Ok (if Req_dec_T r 1 then 0 else 2 * p / (1 - r)).
Proof.
  unfold collapse_pyr. destruct (Req_dec_T r 1); [reflexivity|].
  now rewrite pydiv_nonzero by lra.
Qed.

(** ** The loop nests *)

Ltac scalar_ok :=
  repeat first
    [ rewrite bind_Ok
    | rewrite pypow_nonneg by lia
    | rewrite pypow_nonzero by lra
    | rewrite pydiv_nonzero by apply powerRZ_2_nonzero ].

Ltac enum_loop m :=
  apply for_each_enumerate_spec with (n := m);
  [ list_len
  | let i := fresh "i" in let x := fresh "x" in let Hi := fresh "Hi" in
    intros i x Hi; cbv beta iota ].

Ltac last_loop m :=
  apply for_each_enumerate_single with (n := m);
  [ list_len
  | let i := fresh "k" in let x := fresh "x" in let Hi := fresh "Hk" in
    intros i x Hi; cbv beta iota ].

Ltac emit :=
  eexists; split; [reflexivity | split; [cbn; lia | first [exact I | reflexivity]]].

Lemma line_ortho_loop_spec (order : Z) (p : R) :
  loop_spec (line_ortho_loop order p) (line_degrees order) any.
Proof.
  unfold loop_spec, line_ortho_loop, line_degrees.
  rewrite <- (map_id (range order)).
  last_loop order. emit.
Qed.

Lemma line_jac_ortho_loop_spec (order : Z) (p : R) :
  loop_spec (line_jac_ortho_loop order p) (line_degrees order) (grad_len 1).
Proof.
  unfold loop_spec, line_jac_ortho_loop, line_degrees.
  rewrite <- (map_id (range order)).
  last_loop order. emit.
Qed.

Lemma tri_ortho_loop_spec (order : Z) (p q : R) :
  loop_spec (tri_ortho_loop order p q) (tri_degrees order) any.
Proof.
  unfold loop_spec, tri_ortho_loop, tri_degrees.
  rewrite collapse_simplex_value, bind_Ok.
  enum_loop order. scalar_ok.
  last_loop (order - i)%Z. scalar_ok. emit.
Qed.

Lemma tri_jac_ortho_loop_spec (order : Z) (p q : R) :
  loop_spec (tri_jac_ortho_loop order p q) (tri_degrees order) (grad_len 2).
Proof.
  unfold loop_spec, tri_jac_ortho_loop, tri_degrees.
  rewrite collapse_simplex_value, bind_Ok.
  enum_loop order. destruct x as [fi dfi].
  last_loop (order - i)%Z. destruct x as [gj dgj].
  destruct (Z.gtb_spec i 0); scalar_ok; emit.
Qed.

Lemma quad_ortho_loop_spec (order : Z) (p q : R) :
  loop_spec (quad_ortho_loop order p q) (quad_degrees order) any.
Proof.
  unfold loop_spec, quad_ortho_loop, quad_degrees.
  enum_loop order. last_loop order. emit.
Qed.

Lemma quad_jac_ortho_loop_spec (order : Z) (p q : R) :
  loop_spec (quad_jac_ortho_loop order p q) (quad_degrees order) (grad_len 2).
Proof.
  unfold loop_spec, quad_jac_ortho_loop, quad_degrees.
  enum_loop order. destruct x as [pi dpi].
  last_loop order. destruct x as [pj dpj]. emit.
Qed.

Lemma tet_ortho_loop_spec (order : Z) (p q r : R) :
  loop_spec (tet_ortho_loop order p q r) (tet_degrees order) any.
Proof.
  unfold loop_spec, tet_ortho_loop, tet_degrees.
  rewrite collapse_tet_a_value, bind_Ok, collapse_simplex_value, bind_Ok.
  enum_loop order. scalar_ok.
  enum_loop (order - i)%Z. scalar_ok.
  last_loop (order - i - i0)%Z. emit.
Qed.

Lemma tet_jac_ortho_loop_spec (order : Z) (p q r : R) :
  loop_spec (tet_jac_ortho_loop order p q r) (tet_degrees order) (grad_len 3).
Proof.
  unfold loop_spec, tet_jac_ortho_loop, tet_degrees.
  rewrite collapse_tet_a_value, bind_Ok, collapse_simplex_value, bind_Ok.
  enum_loop order. destruct x as [fi dfi]. scalar_ok.
  enum_loop (order - i)%Z. destruct x as [gj dgj]. scalar_ok.
  last_loop (order - i - i0)%Z. destruct x as [hk dhk].
  destruct (Z.gtb_spec (i + i0) 0); destruct (Z.gtb_spec i 0);
    scalar_ok; emit.
Qed.

Lemma pyr_ortho_loop_spec (order : Z) (p q r : R) :
  loop_spec (pyr_ortho_loop order p q r) (pyr_degrees order) any.
Proof.
  unfold loop_spec, pyr_ortho_loop, pyr_degrees.
  rewrite !collapse_pyr_value, !bind_Ok.
  enum_loop order. enum_loop order. scalar_ok.
  last_loop (order - Z.max i i0)%Z. emit.
Qed.

Lemma pyr_jac_ortho_loop_spec (order : Z) (p q r : R) :
  loop_spec (pyr_jac_ortho_loop order p q r) (pyr_degrees order) (grad_len 3).
Proof.
  unfold loop_spec, pyr_jac_ortho_loop, pyr_degrees.
  rewrite !collapse_pyr_value, !bind_Ok.
  enum_loop order. destruct x as [fi dfi].
  enum_loop order. destruct x as [gj dgj].
  last_loop (order - Z.max i i0)%Z. destruct x as [hk dhk].
  destruct (Z.gtb_spec (i + i0) 0); scalar_ok; emit.
Qed.

Lemma hex_ortho_loop_spec (order : Z) (p q r : R) :
  loop_spec (hex_ortho_loop order p q r) (hex_degrees order) any.
Proof.
  unfold loop_spec, hex_ortho_loop, hex_degrees.
  enum_loop order. enum_loop order. last_loop order. emit.
Qed.

Lemma hex_jac_ortho_loop_spec (order : Z) (p q r : R) :
  loop_spec (hex_jac_ortho_loop order p q r) (hex_degrees order) (grad_len 3).
Proof.
  unfold loop_spec, hex_jac_ortho_loop, hex_degrees.
  enum_loop order. destruct x as [pi dpi].
  enum_loop order. destruct x as [pj dpj].
  last_loop order. destruct x as [pk dpk]. emit.
Qed.

(** The final comprehension of Pri: every entry of [pab] is combined
    with every entry of the list along [c]. *)
Lemma pri_product_spec {T U : Type} (pab : list (entry T))
      (order : Z) (body : entry T -> result (list (entry U)))
      (Q : entry U -> Prop) :
  (forall e, exists out,
     body e = Ok out
     /\ index_sums out = map (fun k => (index_sum (fst e) + k)%Z) (range order)
     /\ Forall Q out) ->
  index_sums pab = tri_degrees order ->
  loop_spec (for_each pab body) (pri_degrees order) Q.
Proof.
  intros Hb Hpab. unfold loop_spec, pri_degrees.
  destruct (for_each_spec pab body (fun e => index_sum (fst e)) Q
              (fun e => index_sum (fst e))
              (fun s => map (fun k => (s + k)%Z) (range order)))
    as (out & E & D & HQ).
  { intros e _. apply Hb. }
  exists out. repeat split; [assumption| |assumption].
  transitivity (flat_map (fun s => map (fun k => (s + k)%Z) (range order))
                         (index_sums pab)); [exact D|].
  rewrite Hpab. unfold tri_degrees.
  rewrite flat_map_flat_map. apply flat_map_ext; intros i.
  rewrite flat_map_map. reflexivity.
Qed.

Ltac emit_app :=
  eexists; split;
  [ reflexivity
  | split; [cbn [fst]; rewrite index_sum_app; reflexivity
           | first [exact I | reflexivity]] ].

Lemma pri_ortho_loop_spec (order : Z) (p q r : R) :
  loop_spec (pri_ortho_loop order p q r) (pri_degrees order) any.
Proof.
  unfold pri_ortho_loop.
  rewrite collapse_simplex_value, bind_Ok.
  match goal with
  | |- loop_spec (bind ?l _) _ _ =>
      assert (Hpab : loop_spec l (tri_degrees order) any)
  end.
  { unfold loop_spec, tri_degrees.
    enum_loop order. scalar_ok.
    last_loop (order - i)%Z. emit. }
  destruct Hpab as (pab & -> & Hpab & _). rewrite bind_Ok.
  apply pri_product_spec; [|assumption].
  intros [ij pij].
  apply for_each_enumerate_single with (n := order); [list_len|].
  intros k pk Hk. emit_app.
Qed.

Lemma pri_jac_ortho_loop_spec (order : Z) (p q r : R) :
  loop_spec (pri_jac_ortho_loop order p q r) (pri_degrees order) (grad_len 3).
Proof.
  unfold pri_jac_ortho_loop.
  rewrite collapse_simplex_value, bind_Ok.
  match goal with
  | |- loop_spec (bind ?l _) _ _ =>
      assert (Hpab : loop_spec l (tri_degrees order) any)
  end.
  { unfold loop_spec, tri_degrees.
    enum_loop order. destruct x as [fi dfi].
    last_loop (order - i)%Z. destruct x as [gj dgj].
    destruct (Z.gtb_spec i 0); scalar_ok; emit. }
  destruct Hpab as (pab & -> & Hpab & _). rewrite bind_Ok.
  apply pri_product_spec; [|assumption].
  intros [ij [[pij qij] rij]].
  apply for_each_enumerate_single with (n := order); [list_len|].
  intros k [hk dhk] Hk. emit_app.
Qed.

(** ** Method dispatch *)

Lemma ortho_loop_spec (s : shape) (order : Z) (xs : list R) :
  length xs = ndims s ->
  loop_spec (ortho_loop s order (coords xs))
            (degrees (mkBasis s order [])) any.
Proof.
  intros Hlen.
  destruct s; simpl in Hlen;
    repeat (destruct xs as [|? xs]; try discriminate Hlen);
    unfold degrees, coords; simpl.
  - apply line_ortho_loop_spec.
  - apply tri_ortho_loop_spec.
  - apply quad_ortho_loop_spec.
  - apply tet_ortho_loop_spec.
  - apply pri_ortho_loop_spec.
  - apply pyr_ortho_loop_spec.
  - apply hex_ortho_loop_spec.
Qed.

Lemma jac_ortho_loop_spec (s : shape) (order : Z) (xs : list R) :
  length xs = ndims s ->
  loop_spec (jac_ortho_loop s order (coords xs))
            (degrees (mkBasis s order [])) (grad_len (ndims s)).
Proof.
  intros Hlen.
  destruct s; simpl in Hlen;
    repeat (destruct xs as [|? xs]; try discriminate Hlen);
    unfold degrees, coords; simpl.
  - apply line_jac_ortho_loop_spec.
  - apply tri_jac_ortho_loop_spec.
  - apply quad_jac_ortho_loop_spec.
  - apply tet_jac_ortho_loop_spec.
  - apply pri_jac_ortho_loop_spec.
  - apply pyr_jac_ortho_loop_spec.
  - apply hex_jac_ortho_loop_spec.
Qed.

(** ** The enumerations on small orders *)

Example tri_degrees_3 : tri_degrees 3 = [0; 1; 2; 1; 2; 2]%Z.
Proof. reflexivity. Qed.

Example tet_degrees_2 : tet_degrees 2 = [0; 1; 1; 1]%Z.
Proof. reflexivity. Qed.

Example pri_degrees_2 : pri_degrees 2 = [0; 1; 1; 2; 1; 2]%Z.
Proof. reflexivity. Qed.

Example pyr_degrees_2 : pyr_degrees 2 = [0; 1; 1; 1; 2]%Z.
Proof. reflexivity. Qed.

Example pyr_degrees_3_length : length (pyr_degrees 3) = 14%nat.
Proof. reflexivity. Qed.

Example hex_degrees_3_length : length (hex_degrees 3) = 27%nat.
Proof. reflexivity. Qed.

Example quad_loop_indices_2 (p q : R) :
  fmap index_sums (quad_ortho_loop 2 p q) = Ok [0; 1; 1; 2]%Z.
Proof. reflexivity. Qed.

Example hex_jac_loop_indices_2 (p q r : R) :
  fmap (map fst) (hex_jac_ortho_loop 2 p q r)
  = Ok [[0; 0; 0]; [0; 0; 1]; [0; 1; 0]; [0; 1; 1];
        [1; 0; 0]; [1; 0; 1]; [1; 1; 0]; [1; 1; 1]]%Z.
Proof. reflexivity. Qed.

Example line_order0_is_empty (p : R) : line_ortho_loop 0 p = Ok [].
Proof. reflexivity. Qed.

(** ** One point *)

Lemma degrees_cls_order (b : basis) :
  degrees b = degrees (mkBasis (cls b) (order b) []).
Proof. reflexivity. Qed.

Lemma ortho_basis_at_mp_ok (b : basis) (c : list R) :
  length c = ndims (cls b) ->
  exists t, ortho_loop (cls b) (order b) (coords c) = Ok t
            /\ ortho_basis_at_mp b (coords c) = Ok (values t)
            /\ index_sums t = degrees b.
Proof.
  intros Hc.
  destruct (ortho_loop_spec (cls b) (order b) c Hc) as (t & E & D & _).
  exists t. unfold ortho_basis_at_mp. rewrite E. now repeat split.
Qed.

Lemma jac_ortho_basis_at_mp_ok (b : basis) (c : list R) :
  length c = ndims (cls b) ->
  exists t, jac_ortho_loop (cls b) (order b) (coords c) = Ok t
            /\ jac_ortho_basis_at_mp b (coords c) = Ok (values t)
            /\ index_sums t = degrees b
            /\ Forall (fun v => length v = ndims (cls b)) (values t).
Proof.
  intros Hc.
  destruct (jac_ortho_loop_spec (cls b) (order b) c Hc) as (t & E & D & Q).
  exists t. unfold jac_ortho_basis_at_mp. rewrite E.
  repeat split; [assumption|].
  unfold values. apply Forall_map. exact Q.
Qed.

Lemma length_values_degrees {T : Type} (t : list (entry T)) (b : basis) :
  index_sums t = degrees b -> length (values t) = length (degrees b).
Proof. intros <-. symmetry. apply length_index_sums. Qed.

Lemma In_zero_range (n : Z) : (1 <= n)%Z -> In 0%Z (range n).
Proof. intros H. apply In_range. lia. Qed.

Lemma degrees_nonempty (b : basis) :
  (1 <= order b)%Z -> (0 < length (degrees b))%nat.
Proof.
  intros H.
  assert (Hin : In 0%Z (degrees b)).
  { unfold degrees, line_degrees, tri_degrees, quad_degrees, tet_degrees,
      pri_degrees, pyr_degrees, hex_degrees.
    destruct (cls b);
      repeat first
        [ apply In_zero_range; lia
        | apply in_flat_map; exists 0%Z; split; [apply In_zero_range; lia|]
        | apply in_map_iff; exists 0%Z; split; [lia|] ]. }
  destruct (degrees b); [destruct Hin | simpl; lia].
Qed.

(** ** Arrays *)

Lemma np_array2_rect (P : list (list R)) (n : nat) :
  P <> [] -> Forall (fun r => length r = n) P ->
  np_array2 P = Ok (Arr2 (length P) n P).
Proof.
  intros Hne Hall. destruct P as [|r0 P']; [contradiction|].
  unfold np_array2.
  assert (Hr0 : length r0 = n) by (inversion Hall; assumption).
  rewrite Hr0.
  replace (forallb _ _) with true; [reflexivity|].
  symmetry. apply forallb_forall. intros r Hr.
  rewrite Forall_forall in Hall. apply Nat.eqb_eq. now apply Hall.
Qed.


Lemma nth_map_seq {A : Type} (f : nat -> A) (n i : nat) (d : A) :
  (i < n)%nat -> nth i (map f (seq 0 n)) d = f i.
Proof.
  intros H. rewrite (nth_indep _ d (f 0%nat)) by (now rewrite length_map, length_seq).
  rewrite (map_nth f). now rewrite seq_nth.
Qed.

Lemma nth_col (j k : nat) (rows : list (list R)) :
  nth k (col j rows) 0 = nth j (nth k rows []) 0.
Proof.
  assert (E : nth j (@nil R) 0 = 0) by now destruct j.
  unfold col.
  transitivity (nth k (map (fun r => nth j r 0) rows) (nth j [] 0)).
  - now rewrite E.
  - apply (map_nth (fun r => nth j r 0)).
Qed.

(** ** The evaluation layer *)

Section Layer.

Variable tol : R.

Lemma chop_scalar_0 : chop_scalar tol 0 = 0.
Proof. unfold chop_scalar. now destruct (Rlt_dec (Rabs 0) tol). Qed.

Lemma chop_scalar_keep (x : R) : tol <= Rabs x -> chop_scalar tol x = x.
Proof.
  intros H. unfold chop_scalar.
  destruct (Rlt_dec (Rabs x) tol); [lra|reflexivity].
Qed.

Lemma chop_scalar_1 : tol <= 1 -> chop_scalar tol 1 = 1.
Proof. intros H. apply chop_scalar_keep. now rewrite Rabs_R1. Qed.

Lemma nth_map_chop (l : list R) (k : nat) :
  nth k (map (chop_scalar tol) l) 0 = chop_scalar tol (nth k l 0).
Proof. rewrite <- chop_scalar_0 at 1. apply map_nth. Qed.

Lemma promote_tuples (cs : list (list R)) : promote (tuples cs) = tuples cs.
Proof. now destruct cs. Qed.

Lemma promote_scalars (xs : list R) :
  promote (map Num xs) = tuples (map (fun x => [x]) xs).
Proof.
  destruct xs as [|x xs]; [reflexivity|].
  unfold promote, tuples. simpl. do 2 f_equal.
  rewrite !map_map. reflexivity.
Qed.

Lemma promote_idempotent (pts : list pyval) :
  promote (promote pts) = promote pts.
Proof.
  destruct pts as [|p0 rest]; [reflexivity|].
  unfold promote. destruct (is_iterable p0) eqn:E; simpl; rewrite ?E;
    reflexivity.
Qed.

Lemma mapM_tuples {B : Type} (f : list pyval -> result B)
      (cs : list (list R)) :
  mapM (fun p => args <- splat p ;; f args) (tuples cs)
  = mapM (fun c => f (coords c)) cs.
Proof.
  induction cs as [|c cs IH]; simpl; [reflexivity|]. now rewrite IH.
Qed.

Lemma mp_row_ok (b : basis) (c : list R) :
  length c = ndims (cls b) ->
  ortho_basis_at_mp b (coords c) = Ok (mp_row b c)
  /\ length (mp_row b c) = length (degrees b).
Proof.
  intros Hc. unfold mp_row.
  destruct (ortho_basis_at_mp_ok b c Hc) as (t & _ & -> & D).
  split; [reflexivity|]. simpl. now apply length_values_degrees.
Qed.

Lemma mp_grads_ok (b : basis) (c : list R) :
  length c = ndims (cls b) ->
  jac_ortho_basis_at_mp b (coords c) = Ok (mp_grads b c)
  /\ length (mp_grads b c) = length (degrees b)
  /\ Forall (fun v => length v = ndims (cls b)) (mp_grads b c).
Proof.
  intros Hc. unfold mp_grads.
  destruct (jac_ortho_basis_at_mp_ok b c Hc) as (t & _ & -> & D & Q).
  split; [reflexivity|]. simpl. split; [now apply length_values_degrees|exact Q].
Qed.

Lemma ortho_basis_at_tuples (b : basis) (cs : list (list R)) :
  cs <> [] -> arity_ok b cs ->
  ortho_basis_at tol b (tuples cs)
  = Ok (chop tol (Arr2 (length (degrees b)) (length cs)
                       (transpose (length (degrees b)) (map (mp_row b) cs)))).
Proof.
  intros Hne Har. unfold arity_ok in Har. unfold ortho_basis_at.
  rewrite promote_tuples, mapM_tuples.
  rewrite (mapM_Ok _ (mp_row b)).
  2:{ intros c Hc. rewrite Forall_forall in Har. now apply mp_row_ok, Har. }
  rewrite bind_Ok.
  rewrite np_array2_rect with (n := length (degrees b)).
  - rewrite bind_Ok, length_map. reflexivity.
  - destruct cs; [contradiction|discriminate].
  - apply Forall_map. revert Har. apply Forall_impl.
    intros c Hc. now apply mp_row_ok.
Qed.


(** Entries of the arrays built from per-point rows. *)
Lemma get2_chop_transpose (n0 n1 : nat) (rows : list (list R)) (i k : nat) :
  (i < n1)%nat ->
  get2 (chop tol (Arr2 n1 n0 (transpose n1 rows))) i k
  = chop_scalar tol (nth i (nth k rows []) 0).
Proof.
  intros Hi. simpl.
  change (@nil R) with (map (chop_scalar tol) []) at 1.
  rewrite (map_nth (map (chop_scalar tol))), nth_map_chop.
  unfold transpose. rewrite nth_map_seq by assumption.
  now rewrite nth_col.
Qed.


Lemma nth_map_in {A B : Type} (f : A -> B) (l : list A) (k : nat)
      (d : B) (d' : A) :
  (k < length l)%nat -> nth k (map f l) d = f (nth k l d').
Proof.
  intros H. rewrite (nth_indep _ d (f d')) by (now rewrite length_map).
  apply map_nth.
Qed.

End Layer.

(** ** Matrices *)

Lemma dot_nil_r (u : list R) : dot u [] = 0.
Proof. unfold dot. now destruct u. Qed.

Lemma dot_cons (x y : R) (u v : list R) :
  dot (x :: u) (y :: v) = x * y + dot u v.
Proof. reflexivity. Qed.

Lemma map_nth_seq {A : Type} (l : list A) (d : A) :
  map (fun i => nth i l d) (seq 0 (length l)) = l.
Proof.
  induction l as [|x l IH]; simpl; [reflexivity|].
  f_equal. rewrite <- seq_shift, map_map. exact IH.
Qed.

Lemma dot_unit_out (i s n : nat) (v : list R) :
  (i < s)%nat ->
  dot (map (fun j => if Nat.eqb i j then 1 else 0) (seq s n)) v = 0.
Proof.
  revert s v; induction n as [|n IH]; intros s v Hi; simpl.
  - reflexivity.
  - destruct v as [|x v]; [reflexivity|].
    rewrite dot_cons, IH by lia.
    destruct (Nat.eqb_spec i s); [lia|lra].
Qed.

Lemma dot_unit (i s n : nat) (v : list R) :
  (s <= i < s + n)%nat -> length v = n ->
  dot (map (fun j => if Nat.eqb i j then 1 else 0) (seq s n)) v
  = nth (i - s) v 0.
Proof.
  revert s v; induction n as [|n IH]; intros s v Hi Hv; [lia|].
  destruct v as [|x v]; [discriminate|]. simpl in Hv.
  simpl seq. simpl map. rewrite dot_cons.
  destruct (Nat.eqb_spec i s) as [->|Hne].
  - rewrite dot_unit_out by lia. rewrite Nat.sub_diag. simpl. lra.
  - rewrite IH by lia.
    replace (i - s)%nat with (S (i - S s)) by lia. simpl. lra.
Qed.

Lemma length_identity (n : nat) : length (identity n) = n.
Proof. unfold identity. now rewrite length_map, length_seq. Qed.

Lemma wf_identity (n : nat) : wf_mat n n (identity n).
Proof.
  split; [apply length_identity|].
  unfold identity. apply Forall_map, Forall_forall. intros i _.
  now rewrite length_map, length_seq.
Qed.

Lemma nth_identity (n k i : nat) :
  (k < n)%nat -> (i < n)%nat ->
  nth i (nth k (identity n) []) 0 = if Nat.eqb k i then 1 else 0.
Proof.
  intros Hk Hi. unfold identity.
  rewrite nth_map_seq by assumption. now rewrite nth_map_seq by assumption.
Qed.

Lemma transpose_identity (n : nat) : transpose n (identity n) = identity n.
Proof.
  unfold transpose, identity. apply map_ext_in. intros j Hj.
  apply in_seq in Hj. unfold col. rewrite map_map.
  apply map_ext_in. intros i Hi. apply in_seq in Hi.
  rewrite nth_map_seq by lia. now rewrite Nat.eqb_sym.
Qed.

Lemma mmul_identity_l (n k : nat) (B : list (list R)) :
  wf_mat n k B -> mmul k (identity n) B = B.
Proof.
  intros [HB1 HB2]. unfold mmul, identity. rewrite map_map.
  transitivity (map (fun i => nth i B []) (seq 0 n));
    [|rewrite <- HB1; apply map_nth_seq].
  apply map_ext_in. intros i Hi. apply in_seq in Hi.
  assert (Hrow : length (nth i B []) = k).
  { rewrite Forall_forall in HB2. apply HB2, nth_In. lia. }
  transitivity (map (fun j => nth j (nth i B []) 0) (seq 0 k));
    [|rewrite <- Hrow; apply map_nth_seq].
  apply map_ext. intros j.
  rewrite dot_unit by (unfold col; rewrite ?length_map; lia).
  rewrite Nat.sub_0_r. apply nth_col.
Qed.

(** Linearity of [dot] in its first argument, entry by entry. *)
Lemma dot_map_linear {A : Type} (a : R) (f g : A -> R) (l : list A)
      (c : list R) :
  dot (map (fun j => a * f j + g j) l) c
  = a * dot (map f l) c + dot (map g l) c.
Proof.
  revert c; induction l as [|x l IH]; intros c; simpl.
  - unfold dot; simpl. lra.
  - destruct c as [|y c]; [unfold dot; simpl; lra|].
    rewrite !dot_cons, IH. lra.
Qed.

Lemma dot_map_zero {A : Type} (l : list A) (c : list R) :
  dot (map (fun _ => 0) l) c = 0.
Proof.
  revert c; induction l as [|x l IH]; intros c; simpl; [reflexivity|].
  destruct c as [|y c]; [reflexivity|]. rewrite dot_cons, IH. lra.
Qed.

(** [(u B) c = u (B c)] for a row [u], a matrix [B] with [k] columns
    and a column [c]. *)
Lemma dot_assoc (k : nat) (B : list (list R)) (u c : list R) :
  Forall (fun r => length r = k) B ->
  dot (map (fun j => dot u (col j B)) (seq 0 k)) c
  = dot u (map (fun r => dot r c) B).
Proof.
  revert u; induction B as [|r B IH]; intros u HB.
  - unfold col. simpl. rewrite dot_nil_r. apply dot_map_zero.
  - destruct u as [|a u].
    + change (dot [] (map (fun r0 => dot r0 c) (r :: B))) with 0.
      rewrite (map_ext _ (fun _ => 0)) by reflexivity.
      apply dot_map_zero.
    + inversion HB as [|? ? Hr HB']; subst.
      simpl map at 2. rewrite dot_cons.
      rewrite (map_ext _ (fun j => a * nth j r 0 + dot u (col j B)))
        by reflexivity.
      rewrite dot_map_linear, map_nth_seq, IH by assumption.
      reflexivity.
Qed.

Lemma mmul_assoc (k p : nat) (A B C : list (list R)) :
  Forall (fun r => length r = k) B ->
  mmul p (mmul k A B) C = mmul p A (mmul p B C).
Proof.
  intros HB. unfold mmul at 1 2 3. rewrite map_map.
  apply map_ext. intros u. apply map_ext_in. intros j Hj.
  apply in_seq in Hj. rewrite dot_assoc by assumption.
  f_equal. unfold mmul, col. rewrite map_map.
  apply map_ext. intros r. now rewrite nth_map_seq by lia.
Qed.

(** ** The linear solver *)

Lemma inverse_spec (n : nat) (A : list (list R)) :
  nonsingular n A -> is_inverse n A (inverse n A).
Proof. intros [_ Hex]. unfold inverse. now apply epsilon_spec. Qed.

Lemma solve_not_2d (xs : list R) (b : ndarray) :
  solve (Arr1 xs) b = Raise LinAlgError.
Proof. reflexivity. Qed.

Lemma solve_not_square (n m : nat) (A : list (list R)) (b : ndarray) :
  n <> m -> solve (Arr2 n m A) b = Raise LinAlgError.
Proof.
  intros H. unfold solve. now destruct (Nat.eqb_spec n m).
Qed.

Lemma solve_matrix (n k : nat) (A B : list (list R)) :
  nonsingular n A ->
  solve (Arr2 n n A) (Arr2 n k B) = Ok (Arr2 n k (mmul k (inverse n A) B)).
Proof.
  intros H. unfold solve. rewrite Nat.eqb_refl. simpl.
  now destruct (excluded_middle_informative (nonsingular n A)).
Qed.

(** The solver returns a solution of the system. *)
Lemma solve_correct (n k : nat) (A B : list (list R)) :
  nonsingular n A -> wf_mat n k B ->
  exists X, solve (Arr2 n n A) (Arr2 n k B) = Ok (Arr2 n k X)
            /\ mmul k A X = B.
Proof.
  intros HA HB. exists (mmul k (inverse n A) B).
  split; [now apply solve_matrix|].
  destruct (inverse_spec n A HA) as ((_ & Hrows) & _ & Hr).
  rewrite <- (mmul_assoc n k) by exact Hrows.
  rewrite Hr. now apply mmul_identity_l.
Qed.

Lemma solve_self (n : nat) (A : list (list R)) :
  nonsingular n A ->
  solve (Arr2 n n A) (Arr2 n n A) = Ok (Arr2 n n (identity n)).
Proof.
  intros H. rewrite solve_matrix by assumption.
  destruct (inverse_spec n A H) as (_ & Hl & _). now rewrite Hl.
Qed.

(* ================================================================= *)
(** * The claims *)

(** C3.  For each of the seven shapes and every order of at least 1,
    at any point of the shape's arity both [ortho_basis_at_mp] and
    [jac_ortho_basis_at_mp] return a sequence of the length of
    [degrees], and entry [n] of [degrees] is the sum of the loop
    indices at which the generator appends its entry [n]. *)
Theorem degrees_aligned_with_generators (b : basis) (c : list R) :
  (1 <= order b)%Z -> length c = ndims (cls b) ->
  exists tv tj,
    ortho_loop (cls b) (order b) (coords c) = Ok tv
    /\ jac_ortho_loop (cls b) (order b) (coords c) = Ok tj
    /\ ortho_basis_at_mp b (coords c) = Ok (values tv)
    /\ jac_ortho_basis_at_mp b (coords c) = Ok (values tj)
    /\ length (degrees b) = length (values tv)
    /\ length (degrees b) = length (values tj)
    /\ degrees b = index_sums tv
    /\ degrees b = index_sums tj.
Proof.
  intros _ Hc.
  destruct (ortho_basis_at_mp_ok b c Hc) as (tv & Ev & Mv & Dv).
  destruct (jac_ortho_basis_at_mp_ok b c Hc) as (tj & Ej & Mj & Dj & _).
  exists tv, tj. repeat split; try assumption; try (symmetry; assumption).
  - symmetry. now apply length_values_degrees.
  - symmetry. now apply length_values_degrees.
Qed.

Lemma degrees_aligned_witness :
  (1 <= order (mkBasis Tet 3 []))%Z
  /\ length [0; 0; 0] = ndims (cls (mkBasis Tet 3 []))
  /\ exists tv tj,
       ortho_loop Tet 3 (coords [0; 0; 0]) = Ok tv
       /\ jac_ortho_loop Tet 3 (coords [0; 0; 0]) = Ok tj
       /\ ortho_basis_at_mp (mkBasis Tet 3 []) (coords [0; 0; 0])
          = Ok (values tv)
       /\ jac_ortho_basis_at_mp (mkBasis Tet 3 []) (coords [0; 0; 0])
          = Ok (values tj)
       /\ length (degrees (mkBasis Tet 3 [])) = length (values tv)
       /\ length (degrees (mkBasis Tet 3 [])) = length (values tj)
       /\ degrees (mkBasis Tet 3 []) = index_sums tv
       /\ degrees (mkBasis Tet 3 []) = index_sums tj.
Proof.
  split; [simpl; lia|]. split; [reflexivity|].
  apply (degrees_aligned_with_generators (mkBasis Tet 3 []) [0; 0; 0]).
  - simpl; lia.
  - reflexivity.
Defined.

(** C2.  The collapsed coordinates of Tri, Pri, Tet and Pyr take
    their limiting value exactly when the denominator of the collapse
    vanishes and are the quotient otherwise, and neither the value
    function nor the gradient function of these shapes raises: no
    division by zero is executed at any point. *)
Theorem collapse_guards_exclude_zero_division
        (ord : Z) (pts0 : list pyval) (p q r : R) :
  collapse_simplex p q
  = Ok (if Req_dec_T (1 - q) 0 then -1 else 2 * (1 + p) / (1 - q) - 1)
  /\ collapse_tet_a p q r
     = Ok (if Req_dec_T (q + r) 0 then -1 else -2 * (1 + p) / (q + r) - 1)
  /\ collapse_pyr p r
     = Ok (if Req_dec_T (1 - r) 0 then 0 else 2 * p / (1 - r))
  /\ collapse_simplex p 1 = Ok (-1)
  /\ collapse_tet_a p q (- q) = Ok (-1)
  /\ collapse_pyr p 1 = Ok 0
  /\ (exists v, ortho_basis_at_mp (mkBasis Tri ord pts0) [Num p; Num q] = Ok v)
  /\ (exists g,
        jac_ortho_basis_at_mp (mkBasis Tri ord pts0) [Num p; Num q] = Ok g)
  /\ (exists v,
        ortho_basis_at_mp (mkBasis Pri ord pts0) [Num p; Num q; Num r] = Ok v)
  /\ (exists g,
        jac_ortho_basis_at_mp (mkBasis Pri ord pts0) [Num p; Num q; Num r]
        = Ok g)
  /\ (exists v,
        ortho_basis_at_mp (mkBasis Tet ord pts0) [Num p; Num q; Num r] = Ok v)
  /\ (exists g,
        jac_ortho_basis_at_mp (mkBasis Tet ord pts0) [Num p; Num q; Num r]
        = Ok g)
  /\ (exists v,
        ortho_basis_at_mp (mkBasis Pyr ord pts0) [Num p; Num q; Num r] = Ok v)
  /\ (exists g,
        jac_ortho_basis_at_mp (mkBasis Pyr ord pts0) [Num p; Num q; Num r]
        = Ok g).
Proof.
  assert (Hv : forall s xs, length xs = ndims s ->
            exists v, ortho_basis_at_mp (mkBasis s ord pts0) (coords xs) = Ok v).
  { intros s xs Hx.
    destruct (ortho_basis_at_mp_ok (mkBasis s ord pts0) xs Hx)
      as (t & _ & E & _).
    now exists (values t). }
  assert (Hg : forall s xs, length xs = ndims s ->
            exists g,
              jac_ortho_basis_at_mp (mkBasis s ord pts0) (coords xs) = Ok g).
  { intros s xs Hx.
    destruct (jac_ortho_basis_at_mp_ok (mkBasis s ord pts0) xs Hx)
      as (t & _ & E & _).
    now exists (values t). }
  repeat split.
  - rewrite collapse_simplex_value.
    destruct (Req_dec_T q 1), (Req_dec_T (1 - q) 0);
      try reflexivity; exfalso; lra.
  - rewrite collapse_tet_a_value.
    destruct (Req_dec_T r (- q)), (Req_dec_T (q + r) 0);
      try reflexivity; exfalso; lra.
  - rewrite collapse_pyr_value.
    destruct (Req_dec_T r 1), (Req_dec_T (1 - r) 0);
      try reflexivity; exfalso; lra.
  - rewrite collapse_simplex_value. now destruct (Req_dec_T 1 1).
  - rewrite collapse_tet_a_value. now destruct (Req_dec_T (- q) (- q)).
  - rewrite collapse_pyr_value. now destruct (Req_dec_T 1 1).
  - exact (Hv Tri [p; q] eq_refl).
  - exact (Hg Tri [p; q] eq_refl).
  - exact (Hv Pri [p; q; r] eq_refl).
  - exact (Hg Pri [p; q; r] eq_refl).
  - exact (Hv Tet [p; q; r] eq_refl).
  - exact (Hg Tet [p; q; r] eq_refl).
  - exact (Hv Pyr [p; q; r] eq_refl).
  - exact (Hg Pyr [p; q; r] eq_refl).
Qed.

Lemma jacobi_0 (a b : Z) (z : R) : jacobi 0 a b z = [1].
Proof. reflexivity. Qed.

Lemma jacobi_1 (a b : Z) (z : R) :
  jacobi 1 a b z = [1; (IZR (a + b + 2) * z + IZR (a - b)) / 2].
Proof. reflexivity. Qed.

Lemma sqrt_half_weights_1 : sqrt_half_weights 1 = [sqrt (0 + 0.5)].
Proof. reflexivity. Qed.

(** C7.  For Quad with order 1, [ortho_basis_at_mp] returns at every
    point [(p, q)] the one-element sequence [[1/2]]. *)
Theorem quad_order1_constant (pts0 : list pyval) (p q : R) :
  ortho_basis_at_mp (mkBasis Quad 1 pts0) [Num p; Num q] = Ok [1 / 2].
Proof.
  unfold ortho_basis_at_mp. cbn [cls order ortho_loop].
  unfold quad_ortho_loop. change (1 - 1)%Z with 0%Z.
  rewrite !jacobi_0, sqrt_half_weights_1. cbn.
  do 2 f_equal.
  replace (sqrt (0 + 0.5) * 1 * (sqrt (0 + 0.5) * 1))
    with (sqrt (0 + 0.5) * sqrt (0 + 0.5)) by ring.
  rewrite sqrt_sqrt; lra.
Qed.

(** C8.  [get_polybasis] returns, for the name of each of the seven
    shape classes, an instance of that class with the given order and
    point set; for any other name it raises the lookup error and
    constructs nothing. *)
Theorem get_polybasis_lookup (nm : string) (ord : Z) (pts0 : list pyval) :
  ~ In nm ["line"; "tri"; "quad"; "tet"; "pri"; "pyr"; "hex"]%string ->
  get_polybasis nm ord pts0 = Raise KeyError
  /\ forall s, get_polybasis (name s) ord pts0 = Ok (mkBasis s ord pts0).
Proof.
  intros Hnot. split.
  - unfold get_polybasis, subclass_where, subclasses. cbn [find name].
    repeat match goal with
    | |- context [String.eqb ?x nm] =>
        destruct (String.eqb_spec x nm) as [<-|_];
        [exfalso; apply Hnot; simpl; tauto|]
    end.
    reflexivity.
  - intros s. destruct s; reflexivity.
Qed.

Lemma get_polybasis_lookup_witness :
  ~ In "cube"%string ["line"; "tri"; "quad"; "tet"; "pri"; "pyr"; "hex"]%string
  /\ get_polybasis "cube" 3 [] = Raise KeyError
  /\ forall s, get_polybasis (name s) 3 [] = Ok (mkBasis s 3 []).
Proof.
  assert (H : ~ In "cube"%string
                ["line"; "tri"; "quad"; "tet"; "pri"; "pyr"; "hex"]%string).
  { simpl. intros [H|[H|[H|[H|[H|[H|[H|[]]]]]]]]; discriminate H. }
  split; [exact H|].
  exact (get_polybasis_lookup "cube" 3 [] H).
Defined.


(** A scalar first: the tuple that follows is wrapped once more.  A
    tuple first: the scalar that follows stays a scalar, and the
    evaluation stops on it. *)
Example promote_scalar_then_tuple (x y : R) :
  promote [Num x; Tup [Num y]] = [Tup [Num x]; Tup [Tup [Num y]]].
Proof. reflexivity. Qed.

Example promote_tuple_then_scalar (x y : R) :
  promote [Tup [Num x]; Num y] = [Tup [Num x]; Num y].
Proof. reflexivity. Qed.

Example ortho_basis_at_tuple_then_scalar (tol x y : R) :
  ortho_basis_at tol (mkBasis Line 1 []) [Tup [Num x]; Num y]
  = Raise TypeError.
Proof. reflexivity. Qed.

(** ** Batches of points *)

Lemma ortho_basis_at_promote (tol : R) (b : basis) (epts : list pyval) :
  ortho_basis_at tol b epts = ortho_basis_at tol b (promote epts).
Proof. unfold ortho_basis_at. now rewrite promote_idempotent. Qed.


Lemma nth_mp_row (b : basis) (cs : list (list R)) (k : nat) :
  (k < length cs)%nat ->
  nth k (map (mp_row b) cs) [] = mp_row b (nth k cs []).
Proof. intros H. now apply nth_map_in. Qed.


Lemma arity_ok_nth (b : basis) (cs : list (list R)) (k : nat) :
  arity_ok b cs -> (k < length cs)%nat ->
  length (nth k cs []) = ndims (cls b).
Proof.
  unfold arity_ok. rewrite Forall_forall. intros H Hk. now apply H, nth_In.
Qed.

(** The array returned by [ortho_basis_at]: basis functions along
    axis 0, points along axis 1. *)
Lemma ortho_basis_at_layout (tol : R) (b : basis) (epts : list pyval)
      (cs : list (list R)) :
  promote epts = tuples cs -> cs <> [] -> arity_ok b cs ->
  exists V, ortho_basis_at tol b epts = Ok V
    /\ shape_of V = [nbasis b; length cs]
    /\ forall i k, (i < nbasis b)%nat -> (k < length cs)%nat ->
         exists vals,
           ortho_basis_at_mp b (coords (nth k cs [])) = Ok vals
           /\ get2 V i k = chop_scalar tol (nth i vals 0).
Proof.
  intros Hp Hne Har.
  rewrite ortho_basis_at_promote, Hp, ortho_basis_at_tuples by assumption.
  eexists. split; [reflexivity|]. split; [reflexivity|].
  intros i k Hi Hk. exists (mp_row b (nth k cs [])).
  split; [now apply mp_row_ok, arity_ok_nth|].
  rewrite get2_chop_transpose by exact Hi.
  now rewrite nth_mp_row.
Qed.


Lemma chop_identity (tol : R) (n : nat) :
  tol <= 1 -> map (map (chop_scalar tol)) (identity n) = identity n.
Proof.
  intros H. unfold identity. rewrite map_map.
  apply map_ext. intros i. rewrite map_map.
  apply map_ext. intros j.
  destruct (Nat.eqb i j); [now apply chop_scalar_1|apply chop_scalar_0].
Qed.

(** ** The claims on arrays *)

(** C1.  When the Vandermonde matrix of an instance is square and
    nonsingular, the nodal basis evaluated at the defining points is
    the identity matrix: entry [k, i] is 1 when [k = i] and 0
    otherwise (the truncation tolerance being at most 1). *)
Theorem nodal_basis_at_own_points_is_identity
        (tol : R) (b : basis) (n : nat) (A : list (list R)) :
  tol <= 1 ->
  vdm tol b = Ok (Arr2 n n A) ->
  nonsingular n A ->
  nodal_basis_at tol b (pts b) = Ok (Arr2 n n (identity n))
  /\ forall k i, (k < n)%nat -> (i < n)%nat ->
       get2 (Arr2 n n (identity n)) k i = if Nat.eqb k i then 1 else 0.
Proof.
  intros Htol Hv HA. split.
  - unfold nodal_basis_at. rewrite Hv, bind_Ok.
    unfold vdm in Hv. rewrite Hv, bind_Ok.
    rewrite solve_self, bind_Ok by assumption.
    simpl. now rewrite transpose_identity, chop_identity.
  - intros k i Hk Hi. simpl. now apply nth_identity.
Qed.


(** C5 (amended).  The Vandermonde matrix is [ortho_basis_at] applied
    to the defining points, not transposed: its rows are indexed by
    the basis functions and its columns by the points, entry [i, k]
    being the truncated value of basis function [i] at point [k]. *)
Theorem vdm_rows_are_basis_functions
        (tol : R) (b : basis) (cs : list (list R)) :
  promote (pts b) = tuples cs -> cs <> [] -> arity_ok b cs ->
  vdm tol b = ortho_basis_at tol b (pts b)
  /\ exists V, vdm tol b = Ok V
       /\ shape_of V = [nbasis b; length cs]
       /\ forall i k, (i < nbasis b)%nat -> (k < length cs)%nat ->
            exists vals,
              ortho_basis_at_mp b (coords (nth k cs [])) = Ok vals
              /\ get2 V i k = chop_scalar tol (nth i vals 0).
Proof.
  intros Hp Hne Har. split; [reflexivity|].
  unfold vdm. now apply ortho_basis_at_layout.
Qed.


(** ** The line with two modes *)

Lemma line2_mp_row (pts0 : list pyval) (x : R) :
  mp_row (mkBasis Line 2 pts0) [x]
  = [orthonormal_legendre01 0 x; orthonormal_legendre01 1 x].
Proof.
  unfold mp_row, ortho_basis_at_mp. cbn [cls order ortho_loop coords map].
  unfold line_ortho_loop. change (2 - 1)%Z with 1%Z.
  rewrite jacobi_1. cbn.
  unfold orthonormal_legendre01, legendre01. simpl INR.
  repeat f_equal; lra.
Qed.

Lemma half_le_sqrt_half : / 2 <= sqrt (/ 2).
Proof.
  rewrite <- (sqrt_square (/ 2)) at 1 by lra.
  apply sqrt_le_1_alt. lra.
Qed.

Lemma one_le_sqrt_three_halves : 1 <= sqrt (1 + / 2).
Proof. rewrite <- sqrt_1 at 1. apply sqrt_le_1_alt. lra. Qed.

Lemma chop_scalar_zero (tol x : R) : x = 0 -> chop_scalar tol x = x.
Proof. intros ->. apply chop_scalar_0. Qed.

Lemma chop_legendre0 (tol x : R) :
  tol <= / 2 ->
  chop_scalar tol (orthonormal_legendre01 0 x) = orthonormal_legendre01 0 x.
Proof.
  intros H. apply chop_scalar_keep.
  unfold orthonormal_legendre01, legendre01. simpl INR.
  rewrite Rmult_1_r, Rplus_0_l, Rabs_pos_eq by apply sqrt_pos.
  pose proof half_le_sqrt_half. lra.
Qed.

Lemma chop_legendre1 (tol x : R) :
  tol <= / 2 -> x = 0 \/ 1 <= Rabs x ->
  chop_scalar tol (orthonormal_legendre01 1 x) = orthonormal_legendre01 1 x.
Proof.
  intros H [->|Hx].
  - apply chop_scalar_zero. unfold orthonormal_legendre01, legendre01. ring.
  - apply chop_scalar_keep.
    unfold orthonormal_legendre01, legendre01. simpl INR.
    rewrite Rabs_mult, (Rabs_pos_eq (sqrt _)) by apply sqrt_pos.
    pose proof one_le_sqrt_three_halves. nra.
Qed.

Lemma line2_ortho_basis_at (tol : R) (pts0 : list pyval) (xs : list R) :
  xs <> [] ->
  ortho_basis_at tol (mkBasis Line 2 pts0) (map Num xs)
  = Ok (chop tol (Arr2 2 (length xs)
         (map (fun n => map (orthonormal_legendre01 n) xs) [0; 1]%nat))).
Proof.
  intros Hne.
  rewrite ortho_basis_at_promote, promote_scalars, ortho_basis_at_tuples.
  - rewrite length_map.
    change (length (degrees (mkBasis Line 2 pts0))) with 2%nat.
    do 3 f_equal.
    unfold transpose, col. cbn [seq map]. rewrite !map_map.
    f_equal; [|f_equal]; apply map_ext; intros x; now rewrite line2_mp_row.
  - destruct xs; [contradiction|discriminate].
  - unfold arity_ok. apply Forall_map, Forall_forall. reflexivity.
Qed.

Lemma double_resolution_small : double_resolution <= / 2.
Proof.
  unfold double_resolution.
  apply Rinv_le_contravar; [lra|].
  apply Rle_trans with (10 ^ 1); [lra|].
  apply Rle_pow; [lra|lia].
Qed.

Lemma chop_line2_values (tol : R) :
  tol <= / 2 ->
  chop tol (Arr2 2 3 line2_values) = Arr2 2 3 line2_values.
Proof.
  intros H. unfold line2_values. cbn [chop map].
  rewrite !chop_legendre0 by assumption.
  rewrite !chop_legendre1
    by first [ assumption
             | left; reflexivity
             | right; unfold Rabs; destruct (Rcase_abs _); lra ].
  reflexivity.
Qed.

Lemma line2_ortho_basis_at_pts3 (tol : R) :
  tol <= / 2 ->
  ortho_basis_at tol line2 line_pts3 = Ok (Arr2 2 3 line2_values).
Proof.
  intros H. unfold line2, line_pts3.
  rewrite line2_ortho_basis_at by discriminate.
  f_equal. now apply chop_line2_values.
Qed.

(** With two basis functions and three points the Vandermonde matrix
    is 2 x 3 and the solver refuses it. *)
Lemma line2_nodal_raises (tol : R) :
  tol <= / 2 ->
  nodal_basis_at tol line2 line_pts3 = Raise LinAlgError.
Proof.
  intros H. unfold nodal_basis_at, vdm.
  change (pts line2) with line_pts3.
  rewrite line2_ortho_basis_at_pts3, !bind_Ok by assumption.
  rewrite solve_not_square by lia. reflexivity.
Qed.

(** C6 (amended).  For Line with order 2 and the points [-1, 0, 1],
    [ortho_basis_at] returns the 2 x 3 array of the values of the
    orthonormalised Legendre polynomials of degree 0 and 1 at the
    three points, and [nodal_basis_at] at these points raises the
    solver's error, the Vandermonde matrix being 2 x 3. *)
Theorem line_order2_three_points (tol : R) :
  tol <= / 2 ->
  ortho_basis_at tol line2 line_pts3 = Ok (Arr2 2 3 line2_values)
  /\ nodal_basis_at tol line2 line_pts3 = Raise LinAlgError.
Proof.
  intros H. split.
  - now apply line2_ortho_basis_at_pts3.
  - now apply line2_nodal_raises.
Qed.

Lemma line_order2_three_points_witness :
  double_resolution <= / 2
  /\ ortho_basis_at double_resolution line2 line_pts3
     = Ok (Arr2 2 3 line2_values)
  /\ nodal_basis_at double_resolution line2 line_pts3 = Raise LinAlgError.
Proof.
  split; [exact double_resolution_small|].
  exact (line_order2_three_points double_resolution double_resolution_small).
Defined.

(** C6 as stated fails: [nodal_basis_at] does not return the 3 x 3
    identity matrix. *)
Lemma line_order2_nodal_not_identity :
  nodal_basis_at double_resolution line2 line_pts3
  <> Ok (Arr2 3 3 (identity 3)).
Proof.
  rewrite line2_nodal_raises by exact double_resolution_small.
  discriminate.
Qed.

Lemma line_pts3_tuples : promote line_pts3 = tuples [[-1]; [0]; [1]].
Proof. reflexivity. Qed.

Lemma line2_arity : arity_ok line2 [[-1]; [0]; [1]].
Proof. unfold arity_ok. repeat constructor. Qed.


(** C5 as stated fails: for Line with order 2 and three points the
    Vandermonde matrix has shape [(2, 3)], basis functions first, and
    differs from the transpose of [ortho_basis_at] at the defining
    points. *)
Lemma vdm_is_not_transposed :
  exists V,
    vdm double_resolution line2 = Ok V
    /\ shape_of V = [2; 3]%nat
    /\ shape_of V <> [length (pts line2); nbasis line2]
    /\ vdm double_resolution line2
       <> fmap T (ortho_basis_at double_resolution line2 (pts line2)).
Proof.
  exists (Arr2 2 3 line2_values).
  assert (E : vdm double_resolution line2 = Ok (Arr2 2 3 line2_values)).
  { unfold vdm. change (pts line2) with line_pts3.
    apply line2_ortho_basis_at_pts3, double_resolution_small. }
  split; [exact E|]. split; [reflexivity|]. split; [discriminate|].
  rewrite E. unfold vdm in E. rewrite E. discriminate.
Qed.

(** ** The line with two modes on the points [-1, 1] *)

Lemma sqrt_half_nonzero : sqrt (/ 2) <> 0.
Proof. pose proof half_le_sqrt_half. lra. Qed.

Lemma sqrt_three_halves_nonzero : sqrt (1 + / 2) <> 0.
Proof. pose proof one_le_sqrt_three_halves. lra. Qed.

Lemma line2_sq_vdm_value (tol : R) :
  tol <= / 2 -> vdm tol line2_sq = Ok (Arr2 2 2 line2_sq_vdm).
Proof.
  intros H. unfold vdm, line2_sq. cbn [pts].
  rewrite line2_ortho_basis_at by discriminate.
  f_equal. unfold line2_sq_vdm. cbn [chop map length].
  rewrite !chop_legendre0 by assumption.
  rewrite !chop_legendre1
    by first [ assumption
             | right; unfold Rabs; destruct (Rcase_abs _); lra ].
  reflexivity.
Qed.

Lemma line2_sq_nonsingular : nonsingular 2 line2_sq_vdm.
Proof.
  pose proof sqrt_half_nonzero as H0.
  pose proof sqrt_three_halves_nonzero as H1.
  assert (Hwf : forall M : list (list R),
            length M = 2%nat ->
            Forall (fun r => length r = 2%nat) M -> wf_mat 2 2 M)
    by (intros; now split).
  split; [apply Hwf; [reflexivity|repeat constructor]|].
  exists line2_sq_inv. split; [apply Hwf; [reflexivity|repeat constructor]|].
  unfold line2_sq_vdm, line2_sq_inv, orthonormal_legendre01, legendre01,
    mmul, identity, col, dot.
  cbn [map seq combine fold_right nth Nat.eqb INR].
  rewrite !Rplus_0_l.
  split; repeat f_equal; field; repeat split; assumption.
Qed.

Lemma nodal_basis_at_own_points_is_identity_witness :
  double_resolution <= 1
  /\ vdm double_resolution line2_sq = Ok (Arr2 2 2 line2_sq_vdm)
  /\ nonsingular 2 line2_sq_vdm
  /\ nodal_basis_at double_resolution line2_sq (pts line2_sq)
     = Ok (Arr2 2 2 (identity 2))
  /\ forall k i, (k < 2)%nat -> (i < 2)%nat ->
       get2 (Arr2 2 2 (identity 2)) k i = if Nat.eqb k i then 1 else 0.
Proof.
  assert (Htol : double_resolution <= 1)
    by (pose proof double_resolution_small; lra).
  split; [exact Htol|].
  split; [exact (line2_sq_vdm_value double_resolution double_resolution_small)|].
  split; [exact line2_sq_nonsingular|].
  exact (nodal_basis_at_own_points_is_identity double_resolution line2_sq 2
           line2_sq_vdm Htol
           (line2_sq_vdm_value double_resolution double_resolution_small)
           line2_sq_nonsingular).
Defined.

(** ** Instances of the hypotheses *)


Lemma tri_pts3_arity : arity_ok tri2 tri_pts3.
Proof. unfold arity_ok. repeat constructor. Qed.


Lemma tri_pts3_nonempty : tri_pts3 <> [].
Proof. discriminate. Qed.

Lemma tet2_order : (1 <= order tet2)%Z.
Proof. simpl. lia. Qed.


Lemma vdm_rows_are_basis_functions_witness :
  promote (pts tri2) = tuples tri_pts3
  /\ tri_pts3 <> []
  /\ arity_ok tri2 tri_pts3
  /\ vdm double_resolution tri2 = ortho_basis_at double_resolution tri2 (pts tri2)
  /\ exists V,
       vdm double_resolution tri2 = Ok V
       /\ shape_of V = [nbasis tri2; length tri_pts3]
       /\ forall i k, (i < nbasis tri2)%nat -> (k < length tri_pts3)%nat ->
            exists vals,
              ortho_basis_at_mp tri2 (coords (nth k tri_pts3 [])) = Ok vals
              /\ get2 V i k = chop_scalar double_resolution (nth i vals 0).
Proof.
  split; [exact (promote_tuples tri_pts3)|].
  split; [exact tri_pts3_nonempty|].
  split; [exact tri_pts3_arity|].
  exact (vdm_rows_are_basis_functions double_resolution tri2 tri_pts3
           (promote_tuples tri_pts3) tri_pts3_nonempty tri_pts3_arity).
Defined.


(* ================================================================= *)
(** * Further properties of the code *)

(** ** The number of basis functions *)

Lemma length_flat_map_range {A : Type} (f : Z -> list A) (c : Z -> Z)
      (F : Z -> Z) (k n : Z) :
  (0 <= n)%Z -> F 0%Z = 0%Z ->
  (forall i, (0 <= i < n)%Z ->
     (k * Z.of_nat (length (f i)) = c i
      /\ F (i + 1) = F i + c i)%Z) ->
  (k * Z.of_nat (length (flat_map f (range n))) = F n)%Z.
Proof.
  intros Hn HF0 Hstep.
  rewrite <- (Z2Nat.id n) in * by assumption.
  assert (Hm : (Z.to_nat n <= Z.to_nat n)%nat) by lia.
  revert Hm. generalize (Z.to_nat n) at 1 3 4 as m.
  induction m as [|m IH]; intros Hm.
  - simpl. rewrite HF0. lia.
  - rewrite range_of_nat_S, flat_map_app, length_app. simpl flat_map.
    rewrite app_nil_r, Nat2Z.inj_add, Z.mul_add_distr_l, IH by lia.
    destruct (Hstep (Z.of_nat m)) as [Hc HF]; [lia|].
    rewrite Hc. replace (Z.of_nat (S m)) with (Z.of_nat m + 1)%Z by lia.
    lia.
Qed.

Lemma length_map_range {A : Type} (g : Z -> A) (n : Z) :
  (0 <= n)%Z -> Z.of_nat (length (map g (range n))) = n.
Proof. intros H. rewrite length_map, length_range. lia. Qed.

(** A triangular enumeration: [j] below [n], then [n - j] entries. *)
Lemma length_triangle {A : Type} (g : Z -> Z -> A) (n : Z) :
  (0 <= n)%Z ->
  (2 * Z.of_nat (length (flat_map (fun j => map (g j) (range (n - j)))
                                  (range n)))
   = n * (n + 1))%Z.
Proof.
  intros Hn.
  rewrite (length_flat_map_range _ (fun j => 2 * (n - j))%Z
             (fun m => m * (2 * n - m + 1))%Z) by
    (try assumption; try reflexivity;
     intros i Hi; rewrite length_map_range by lia; split; ring).
  ring.
Qed.

(** A rectangular enumeration: [n] entries for each [j] below [m]. *)
Lemma length_rectangle {A : Type} (f : Z -> list A) (m n : Z) :
  (0 <= m)%Z ->
  (forall j, (0 <= j < m)%Z -> Z.of_nat (length (f j)) = n) ->
  Z.of_nat (length (flat_map f (range m))) = (m * n)%Z.
Proof.
  intros Hm Hf.
  pose proof (length_flat_map_range f (fun _ => n) (fun j => j * n)%Z 1 m Hm
                eq_refl) as H.
  rewrite <- H; [lia|].
  intros i Hi. rewrite (Hf i Hi). split; ring.
Qed.

Lemma length_line_degrees (n : Z) :
  (0 <= n)%Z -> Z.of_nat (length (line_degrees n)) = n.
Proof. intros H. unfold line_degrees. rewrite length_range. lia. Qed.

Lemma length_quad_degrees (n : Z) :
  (0 <= n)%Z -> Z.of_nat (length (quad_degrees n)) = (n * n)%Z.
Proof.
  intros H. unfold quad_degrees. apply length_rectangle; [assumption|].
  intros i _. now apply length_map_range.
Qed.

Lemma length_hex_degrees (n : Z) :
  (0 <= n)%Z -> Z.of_nat (length (hex_degrees n)) = (n * n * n)%Z.
Proof.
  intros H. unfold hex_degrees.
  rewrite length_rectangle with (n := (n * n)%Z); [ring|assumption|].
  intros i _. apply length_rectangle; [assumption|].
  intros j _. now apply length_map_range.
Qed.

Lemma length_tri_degrees (n : Z) :
  (0 <= n)%Z -> (2 * Z.of_nat (length (tri_degrees n)) = n * (n + 1))%Z.
Proof. intros H. unfold tri_degrees. now apply length_triangle. Qed.

Lemma length_tet_degrees (n : Z) :
  (0 <= n)%Z ->
  (6 * Z.of_nat (length (tet_degrees n)) = n * (n + 1) * (n + 2))%Z.
Proof.
  intros H. unfold tet_degrees.
  rewrite (length_flat_map_range _ (fun i => 3 * ((n - i) * (n - i + 1)))%Z
             (fun m => n * (n + 1) * (n + 2)
                       - (n - m) * (n - m + 1) * (n - m + 2))%Z).
  - ring.
  - assumption.
  - ring.
  - intros i Hi. split; [|ring].
    pose proof (length_triangle (fun j k => (i + j + k)%Z) (n - i)) as E.
    lia.
Qed.

Lemma length_pri_degrees (n : Z) :
  (0 <= n)%Z ->
  (2 * Z.of_nat (length (pri_degrees n)) = n * n * (n + 1))%Z.
Proof.
  intros H. unfold pri_degrees.
  rewrite (length_flat_map_range _ (fun i => 2 * ((n - i) * n))%Z
             (fun m => n * (m * (2 * n - m + 1)))%Z).
  - ring.
  - assumption.
  - ring.
  - intros i Hi. split; [|ring].
    rewrite length_rectangle with (n := n); [ring|lia|].
    intros j _. now apply length_map_range.
Qed.

(** The inner enumeration of Pyr for a fixed [i]: [n - max i j]
    entries for each [j] below [n]. *)
Lemma length_pyr_row {A : Type} (g : Z -> Z -> A) (n i : Z) :
  (0 <= i < n)%Z ->
  (2 * Z.of_nat (length (flat_map
                           (fun j => map (g j) (range (n - Z.max i j)))
                           (range n)))
   = 2 * (i + 1) * (n - i) + (n - i - 1) * (n - i))%Z.
Proof.
  intros Hi.
  rewrite (length_flat_map_range _ (fun j => 2 * (n - Z.max i j))%Z
             (fun m => if (m <=? i + 1)%Z then 2 * m * (n - i)
                       else 2 * (i + 1) * (n - i) + (n - i - 1) * (n - i)
                            - (n - m) * (n - m + 1))%Z).
  - destruct (Z.leb_spec n (i + 1)); [|ring].
    replace n with (i + 1)%Z by lia. ring.
  - lia.
  - destruct (Z.leb_spec 0 (i + 1)); [ring|lia].
  - intros j Hj. split.
    + rewrite length_map_range by lia. reflexivity.
    + destruct (Z.max_spec i j) as [[Hij ->]|[Hij ->]];
        destruct (Z.leb_spec (j + 1) (i + 1));
        destruct (Z.leb_spec j (i + 1)); try lia; try ring.
      replace j with (i + 1)%Z by lia. ring.
Qed.

Lemma length_pyr_degrees (n : Z) :
  (0 <= n)%Z ->
  (6 * Z.of_nat (length (pyr_degrees n)) = n * (n + 1) * (2 * n + 1))%Z.
Proof.
  intros H. unfold pyr_degrees.
  rewrite (length_flat_map_range _
             (fun i => 3 * (2 * (i + 1) * (n - i) + (n - i - 1) * (n - i)))%Z
             (fun m => 3 * m * n * (n + 1) - (m - 1) * m * (m + 1))%Z).
  - ring.
  - assumption.
  - ring.
  - intros i Hi. split; [|ring].
    pose proof (length_pyr_row (fun j k => (i + j + k)%Z) n i Hi) as E.
    lia.
Qed.

(** ** What the evaluation layer returns *)

Lemma length_transpose (n1 : nat) (rows : list (list R)) :
  wf_mat n1 (length rows) (transpose n1 rows).
Proof.
  unfold transpose. split.
  - now rewrite length_map, length_seq.
  - apply Forall_map, Forall_forall. intros j _. unfold col.
    now rewrite length_map.
Qed.

Lemma wf_mat_map (f : R -> R) (n k : nat) (M : list (list R)) :
  wf_mat n k M -> wf_mat n k (map (map f) M).
Proof.
  intros [H1 H2]. split; [now rewrite length_map|].
  apply Forall_map. revert H2. apply Forall_impl. intros r Hr.
  now rewrite length_map.
Qed.

Lemma np_array2_inv (P : list (list R)) (a : ndarray) :
  np_array2 P = Ok a ->
  (P = [] /\ a = Arr1 [])
  \/ (exists n1, P <> [] /\ a = Arr2 (length P) n1 P).
Proof.
  unfold np_array2. destruct P as [|r0 P'].
  - intros H. injection H as <-. now left.
  - destruct (forallb _ _); [|discriminate].
    intros H. injection H as <-. right. exists (length r0).
    split; [discriminate|reflexivity].
Qed.

(** A two-dimensional array returned by [ortho_basis_at] is
    rectangular. *)
Lemma ortho_basis_at_wf (tol : R) (b : basis) (epts : list pyval)
      (n k : nat) (B : list (list R)) :
  ortho_basis_at tol b epts = Ok (Arr2 n k B) -> wf_mat n k B.
Proof.
  unfold ortho_basis_at.
  destruct (mapM _ (promote epts)) as [P|e]; [|discriminate].
  rewrite bind_Ok.
  destruct (np_array2 P) as [a|e] eqn:E; [|discriminate].
  rewrite bind_Ok.
  apply np_array2_inv in E as [[-> ->]|(n1 & _ & ->)]; [discriminate|].
  simpl. intros H. injection H as <- <- <-.
  apply wf_mat_map, length_transpose.
Qed.

Lemma mmul_wf (n k : nat) (A B : list (list R)) :
  length A = n -> wf_mat n k (mmul k A B).
Proof.
  intros H. unfold mmul. split; [now rewrite length_map|].
  apply Forall_map, Forall_forall. intros r _.
  now rewrite length_map, length_seq.
Qed.

(** The solution of a nonsingular system is unique. *)
Lemma solution_unique (n k : nat) (A X Y : list (list R)) :
  nonsingular n A -> wf_mat n k X -> wf_mat n k Y ->
  mmul k A X = mmul k A Y -> X = Y.
Proof.
  intros HA HX HY E.
  destruct (inverse_spec n A HA) as (_ & Hl & _).
  destruct HA as [[_ HArows] _].
  rewrite <- (mmul_identity_l n k X HX), <- (mmul_identity_l n k Y HY).
  rewrite <- Hl, !(mmul_assoc n k) by exact HArows.
  now rewrite E.
Qed.

(** ** Cardinality and degrees *)

Lemma div_exact (k x y : Z) : (0 < k)%Z -> (k * x = y)%Z -> (x = y / k)%Z.
Proof. intros Hk <-. rewrite Z.mul_comm, Z.div_mul; lia. Qed.


(** X1.  For every order [n >= 0] the list [degrees] has [n] entries
    on the line, [n(n+1)/2] on the triangle, [n^2] on the
    quadrilateral, [n(n+1)(n+2)/6] on the tetrahedron, [n^2(n+1)/2] on
    the prism, [n(n+1)(2n+1)/6] on the pyramid and [n^3] on the
    hexahedron. *)
Theorem degrees_cardinality (b : basis) :
  (0 <= order b)%Z ->
  Z.of_nat (length (degrees b)) = expected_nbasis (cls b) (order b).
Proof.
  intros H. unfold degrees, expected_nbasis. destruct (cls b).
  - now apply length_line_degrees.
  - apply div_exact; [lia|]. now apply length_tri_degrees.
  - now apply length_quad_degrees.
  - apply div_exact; [lia|]. now apply length_tet_degrees.
  - apply div_exact; [lia|]. now apply length_pri_degrees.
  - apply div_exact; [lia|]. now apply length_pyr_degrees.
  - now apply length_hex_degrees.
Qed.

Lemma degrees_cardinality_witness :
  (0 <= order (mkBasis Pyr 4 []))%Z
  /\ Z.of_nat (length (degrees (mkBasis Pyr 4 []))) = 30%Z.
Proof.
  split; [simpl; lia|].
  exact (degrees_cardinality (mkBasis Pyr 4 []) ltac:(simpl; lia)).
Defined.


Ltac in_ranges :=
  repeat match goal with
  | H : In _ (flat_map _ _) |- _ =>
      apply in_flat_map in H; destruct H as (? & ? & H)
  | H : In _ (map _ _) |- _ =>
      apply in_map_iff in H; destruct H as (? & ? & H)
  | H : In _ (range _) |- _ => apply In_range in H
  end.

Lemma degrees_in_bounds (b : basis) (d : Z) :
  In d (degrees b) -> (0 <= d <= max_degree (cls b) (order b))%Z.
Proof.
  unfold degrees, max_degree, line_degrees, tri_degrees, quad_degrees,
    tet_degrees, pri_degrees, pyr_degrees, hex_degrees.
  destruct (cls b); intros H; in_ranges; lia.
Qed.

Lemma max_degree_attained (b : basis) :
  (1 <= order b)%Z -> In (max_degree (cls b) (order b)) (degrees b).
Proof.
  intros H.
  unfold degrees, max_degree, line_degrees, tri_degrees, quad_degrees,
    tet_degrees, pri_degrees, pyr_degrees, hex_degrees.
  destruct (cls b).
  - apply In_range. lia.
  - apply in_flat_map. exists (order b - 1)%Z. split; [apply In_range; lia|].
    apply in_map_iff. exists 0%Z. split; [lia|apply In_range; lia].
  - apply in_flat_map. exists (order b - 1)%Z. split; [apply In_range; lia|].
    apply in_map_iff. exists (order b - 1)%Z.
    split; [lia|apply In_range; lia].
  - apply in_flat_map. exists (order b - 1)%Z. split; [apply In_range; lia|].
    apply in_flat_map. exists 0%Z. split; [apply In_range; lia|].
    apply in_map_iff. exists 0%Z. split; [lia|apply In_range; lia].
  - apply in_flat_map. exists (order b - 1)%Z. split; [apply In_range; lia|].
    apply in_flat_map. exists 0%Z. split; [apply In_range; lia|].
    apply in_map_iff. exists (order b - 1)%Z.
    split; [lia|apply In_range; lia].
  - apply in_flat_map. exists (order b - 1)%Z. split; [apply In_range; lia|].
    apply in_flat_map. exists (order b - 1)%Z.
    split; [apply In_range; lia|].
    apply in_map_iff. exists 0%Z. split; [lia|apply In_range; lia].
  - apply in_flat_map. exists (order b - 1)%Z. split; [apply In_range; lia|].
    apply in_flat_map. exists (order b - 1)%Z.
    split; [apply In_range; lia|].
    apply in_map_iff. exists (order b - 1)%Z.
    split; [lia|apply In_range; lia].
Qed.

Lemma range_head (n : Z) :
  (1 <= n)%Z -> exists tl, range n = 0%Z :: tl.
Proof.
  intros H. unfold range.
  destruct (Z.to_nat n) as [|m] eqn:E; [lia|].
  simpl. eexists. reflexivity.
Qed.

Lemma degrees_head (b : basis) :
  (1 <= order b)%Z -> exists tl, degrees b = 0%Z :: tl.
Proof.
  intros H.
  unfold degrees, line_degrees, tri_degrees, quad_degrees,
    tet_degrees, pri_degrees, pyr_degrees, hex_degrees.
  destruct (range_head (order b) H) as [tl E].
  destruct (cls b);
    repeat (progress (change (Z.max 0 0) with 0%Z;
                      rewrite ?Z.sub_0_r, ?E;
                      cbn [flat_map map app Z.add]));
    eexists; reflexivity.
Qed.

(** X3.  For an order [n] of at least 1 the first entry of [degrees]
    is 0, and every entry lies between 0 and [n - 1] on the line, the
    triangle and the tetrahedron, [2(n - 1)] on the quadrilateral, the
    prism and the pyramid, and [3(n - 1)] on the hexahedron; this
    largest value occurs. *)
Theorem degrees_range (b : basis) :
  (1 <= order b)%Z ->
  (exists tl, degrees b = 0%Z :: tl)
  /\ Forall (fun d => (0 <= d <= max_degree (cls b) (order b))%Z) (degrees b)
  /\ In (max_degree (cls b) (order b)) (degrees b).
Proof.
  intros H. split; [now apply degrees_head|]. split.
  - apply Forall_forall. intros d. apply degrees_in_bounds.
  - now apply max_degree_attained.
Qed.

Lemma degrees_range_witness :
  (1 <= order (mkBasis Pri 3 []))%Z
  /\ (exists tl, degrees (mkBasis Pri 3 []) = 0%Z :: tl)
  /\ Forall (fun d => (0 <= d <= 4)%Z) (degrees (mkBasis Pri 3 []))
  /\ In 4%Z (degrees (mkBasis Pri 3 [])).
Proof.
  split; [simpl; lia|].
  exact (degrees_range (mkBasis Pri 3 []) ltac:(simpl; lia)).
Defined.


(** ** Batches: layout, empty input, wrong arity *)

(** X4.  For an order of at least 1 and a non-empty list of points
    of the shape's arity (scalars are accepted for the line),
    [ortho_basis_at] returns a
    two-dimensional array with one row per basis function and one
    column per point: entry [i, k] is the truncated value of basis
    function [i] at point [k]. *)
Theorem ortho_basis_at_axes
        (tol : R) (b : basis) (epts : list pyval) (cs : list (list R)) :
  (1 <= order b)%Z ->
  promote epts = tuples cs -> cs <> [] -> arity_ok b cs ->
  exists V, ortho_basis_at tol b epts = Ok V
    /\ shape_of V = [nbasis b; length cs]
    /\ forall i k, (i < nbasis b)%nat -> (k < length cs)%nat ->
         exists vals,
           ortho_basis_at_mp b (coords (nth k cs [])) = Ok vals
           /\ get2 V i k = chop_scalar tol (nth i vals 0).
Proof.
  intros _ Hp Hne Har.
  rewrite ortho_basis_at_promote, Hp, ortho_basis_at_tuples by assumption.
  eexists. split; [reflexivity|]. split; [reflexivity|].
  intros i k Hi Hk. exists (mp_row b (nth k cs [])).
  split; [now apply mp_row_ok, arity_ok_nth|].
  rewrite get2_chop_transpose by exact Hi.
  now rewrite nth_mp_row.
Qed.

Lemma ortho_basis_at_axes_witness :
  (1 <= order line2)%Z
  /\ promote line_pts3 = tuples [[-1]; [0]; [1]]
  /\ [[-1]; [0]; [1]] <> []
  /\ arity_ok line2 [[-1]; [0]; [1]]
  /\ exists V, ortho_basis_at double_resolution line2 line_pts3 = Ok V
       /\ shape_of V = [nbasis line2; length [[-1]; [0]; [1]]]
       /\ forall i k, (i < nbasis line2)%nat -> (k < 3)%nat ->
            exists vals,
              ortho_basis_at_mp line2 (coords (nth k [[-1]; [0]; [1]] []))
              = Ok vals
              /\ get2 V i k = chop_scalar double_resolution (nth i vals 0).
Proof.
  assert (Hne : [[-1]; [0]; [1]] <> @nil (list R)) by discriminate.
  assert (Hord : (1 <= order line2)%Z) by (simpl; lia).
  split; [exact Hord|].
  split; [exact line_pts3_tuples|]. split; [exact Hne|].
  split; [exact line2_arity|].
  exact (ortho_basis_at_axes double_resolution line2 line_pts3
           [[-1]; [0]; [1]] Hord line_pts3_tuples Hne line2_arity).
Defined.

(** X5.  On the empty list of points [ortho_basis_at] returns the
    empty one-dimensional array, whereas [jac_ortho_basis_at] raises:
    the empty array has no axis 2 to swap.  [jac_nodal_basis_at] on
    the empty list therefore never returns. *)
Theorem empty_batch (tol : R) (b : basis) :
  ortho_basis_at tol b [] = Ok (Arr1 [])
  /\ jac_ortho_basis_at tol b [] = Raise AxisError
  /\ forall a, jac_nodal_basis_at tol b [] <> Ok a.
Proof.
  split; [reflexivity|]. split; [reflexivity|].
  intros a. unfold jac_nodal_basis_at.
  destruct (vdm tol b); simpl; discriminate.
Qed.

Lemma ortho_loop_wrong_arity (s : shape) (ord : Z) (c : list R) :
  length c <> ndims s -> ortho_loop s ord (coords c) = Raise TypeError.
Proof.
  intros H.
  destruct s; simpl in H;
    destruct c as [|x0 [|x1 [|x2 [|x3 c]]]]; simpl in H;
    try reflexivity; contradiction H; reflexivity.
Qed.

Lemma jac_ortho_loop_wrong_arity (s : shape) (ord : Z) (c : list R) :
  length c <> ndims s -> jac_ortho_loop s ord (coords c) = Raise TypeError.
Proof.
  intros H.
  destruct s; simpl in H;
    destruct c as [|x0 [|x1 [|x2 [|x3 c]]]]; simpl in H;
    try reflexivity; contradiction H; reflexivity.
Qed.

Lemma mapM_raises {A B : Type} (f : A -> result B) (g : A -> B)
      (l1 l2 : list A) (x : A) (e : exn) :
  (forall y, In y l1 -> f y = Ok (g y)) -> f x = Raise e ->
  mapM f (l1 ++ x :: l2) = Raise e.
Proof.
  intros H1 Hx. induction l1 as [|y l1 IH]; simpl.
  - now rewrite Hx.
  - rewrite (H1 y (or_introl eq_refl)), bind_Ok.
    rewrite IH by (intros z Hz; apply H1; now right). reflexivity.
Qed.

(** X6.  A point with the wrong number of coordinates makes both
    batch evaluations raise [TypeError], the points before it being
    well formed; nothing is returned for the points already
    evaluated. *)
Theorem wrong_arity_raises
        (tol : R) (b : basis) (cs1 cs2 : list (list R)) (c : list R) :
  arity_ok b cs1 -> length c <> ndims (cls b) ->
  ortho_basis_at tol b (tuples (cs1 ++ c :: cs2)) = Raise TypeError
  /\ jac_ortho_basis_at tol b (tuples (cs1 ++ c :: cs2)) = Raise TypeError.
Proof.
  intros H1 Hc. unfold arity_ok in H1. rewrite Forall_forall in H1.
  unfold ortho_basis_at, jac_ortho_basis_at.
  rewrite promote_tuples, !mapM_tuples. split.
  - rewrite (mapM_raises _ (mp_row b) cs1 cs2 c TypeError); [reflexivity| |].
    + intros y Hy. now apply mp_row_ok, H1.
    + unfold ortho_basis_at_mp. now rewrite ortho_loop_wrong_arity.
  - rewrite (mapM_raises _ (mp_grads b) cs1 cs2 c TypeError); [reflexivity| |].
    + intros y Hy. now apply mp_grads_ok, H1.
    + unfold jac_ortho_basis_at_mp. now rewrite jac_ortho_loop_wrong_arity.
Qed.

Lemma wrong_arity_raises_witness :
  arity_ok tri2 tri_pts3
  /\ length [0; 0; 0] <> ndims (cls tri2)
  /\ ortho_basis_at double_resolution tri2
       (tuples (tri_pts3 ++ [0; 0; 0] :: tri_pts3)) = Raise TypeError
  /\ jac_ortho_basis_at double_resolution tri2
       (tuples (tri_pts3 ++ [0; 0; 0] :: tri_pts3)) = Raise TypeError.
Proof.
  assert (H : length [0; 0; 0] <> ndims (cls tri2)) by discriminate.
  split; [exact tri_pts3_arity|]. split; [exact H|].
  exact (wrong_arity_raises double_resolution tri2 tri_pts3 tri_pts3
           [0; 0; 0] tri_pts3_arity H).
Defined.

(** ** The nodal layer *)


Lemma mmul_inverse_solves (n k : nat) (A B : list (list R)) :
  nonsingular n A -> wf_mat n k B ->
  mmul k A (mmul k (inverse n A) B) = B.
Proof.
  intros HA HB.
  destruct (inverse_spec n A HA) as ((_ & Hrows) & _ & Hr).
  rewrite <- (mmul_assoc n k) by exact Hrows.
  rewrite Hr. now apply mmul_identity_l.
Qed.

(** X7.  When the Vandermonde matrix [A] is square and nonsingular
    and [ortho_basis_at] returns the matrix [B] at the evaluation
    points, [nodal_basis_at] returns the truncated transpose of the
    unique solution [X] of [A X = B]: entry [m, j] of the result is
    the truncated entry [j, m] of [X], points along axis 0 and nodes
    along axis 1. *)
Theorem nodal_basis_at_solves_vandermonde
        (tol : R) (b : basis) (epts : list pyval) (n k : nat)
        (A B : list (list R)) :
  vdm tol b = Ok (Arr2 n n A) ->
  nonsingular n A ->
  ortho_basis_at tol b epts = Ok (Arr2 n k B) ->
  exists X N,
    nodal_basis_at tol b epts = Ok N
    /\ shape_of N = [k; n]
    /\ wf_mat n k X
    /\ mmul k A X = B
    /\ (forall Y, wf_mat n k Y -> mmul k A Y = B -> Y = X)
    /\ forall m j, (m < k)%nat ->
         get2 N m j = chop_scalar tol (nth m (nth j X []) 0).
Proof.
  intros Hv HA HB.
  pose proof (ortho_basis_at_wf tol b epts n k B HB) as HwfB.
  assert (HwfX : wf_mat n k (mmul k (inverse n A) B)).
  { apply mmul_wf. now destruct (inverse_spec n A HA) as ((Hl & _) & _). }
  exists (mmul k (inverse n A) B).
  exists (chop tol (Arr2 k n (transpose k (mmul k (inverse n A) B)))).
  split.
  { unfold nodal_basis_at. rewrite Hv, HB, !bind_Ok.
    now rewrite solve_matrix by assumption. }
  split; [reflexivity|]. split; [exact HwfX|].
  split; [now apply mmul_inverse_solves|]. split.
  - intros Y HY EY. apply (solution_unique n k A); try assumption.
    rewrite EY. symmetry. now apply mmul_inverse_solves.
  - intros m j Hm. now apply get2_chop_transpose.
Qed.

Lemma line2_sq_ortho_basis_at :
  ortho_basis_at double_resolution line2_sq (pts line2_sq)
  = Ok (Arr2 2 2 line2_sq_vdm).
Proof. exact (line2_sq_vdm_value double_resolution double_resolution_small). Qed.

Lemma nodal_basis_at_solves_vandermonde_witness :
  vdm double_resolution line2_sq = Ok (Arr2 2 2 line2_sq_vdm)
  /\ nonsingular 2 line2_sq_vdm
  /\ ortho_basis_at double_resolution line2_sq (pts line2_sq)
     = Ok (Arr2 2 2 line2_sq_vdm)
  /\ exists X N,
       nodal_basis_at double_resolution line2_sq (pts line2_sq) = Ok N
       /\ shape_of N = [2; 2]%nat
       /\ wf_mat 2 2 X
       /\ mmul 2 line2_sq_vdm X = line2_sq_vdm
       /\ (forall Y, wf_mat 2 2 Y -> mmul 2 line2_sq_vdm Y = line2_sq_vdm ->
                     Y = X)
       /\ forall m j, (m < 2)%nat ->
            get2 N m j = chop_scalar double_resolution (nth m (nth j X []) 0).
Proof.
  split; [exact line2_sq_ortho_basis_at|].
  split; [exact line2_sq_nonsingular|].
  split; [exact line2_sq_ortho_basis_at|].
  exact (nodal_basis_at_solves_vandermonde double_resolution line2_sq
           (pts line2_sq) 2 2 line2_sq_vdm line2_sq_vdm
           line2_sq_ortho_basis_at line2_sq_nonsingular
           line2_sq_ortho_basis_at).
Defined.



(** ** Tensor-product structure *)

Lemma fmap_values_inv {T : Type} (r : result (list (entry T)))
      (v : list T) :
  fmap values r = Ok v -> exists t, r = Ok t /\ values t = v.
Proof.
  destruct r as [t|e]; simpl; [|discriminate].
  intros H. injection H as <-. now exists t.
Qed.

Lemma values_app {T : Type} (t1 t2 : list (entry T)) :
  values (t1 ++ t2) = values t1 ++ values t2.
Proof. unfold values. apply map_app. Qed.

(** The values appended by a loop over [enumerate(l)], given the
    values appended by its body. *)
Lemma for_each_enumerate_values {A T : Type} (l : list A)
      (body : Z * A -> result (list (entry T))) (g : Z -> A -> list T) :
  (forall i x, (0 <= i)%Z -> fmap values (body (i, x)) = Ok (g i x)) ->
  fmap values (for_each (enumerate l) body)
  = Ok (flat_map (fun '(i, x) => g i x) (enumerate l)).
Proof.
  intros Hb. unfold enumerate.
  enough (H : forall s, (0 <= s)%Z ->
                fmap values (for_each (enumerate_from s l) body)
                = Ok (flat_map (fun '(i, x) => g i x) (enumerate_from s l)))
    by (apply H; lia).
  induction l as [|x l IH]; intros s Hs.
  - reflexivity.
  - simpl.
    destruct (fmap_values_inv _ _ (Hb s x Hs)) as (o & -> & Ho).
    rewrite bind_Ok.
    destruct (fmap_values_inv _ _ (IH (s + 1)%Z ltac:(lia)))
      as (r & -> & Hr).
    simpl. now rewrite values_app, Ho, Hr.
Qed.

Lemma flat_map_enumerate {A B : Type} (g : A -> list B) (l : list A) :
  flat_map (fun '(_, x) => g x) (enumerate l) = flat_map g l.
Proof.
  unfold enumerate. generalize 0%Z as s.
  induction l as [|x l IH]; intros s; simpl; [reflexivity|].
  now rewrite IH.
Qed.

(** The values appended by a loop over a list of entries. *)
Lemma for_each_values {A T : Type} (l : list A)
      (body : A -> result (list (entry T))) (g : A -> list T) :
  (forall x, fmap values (body x) = Ok (g x)) ->
  fmap values (for_each l body) = Ok (flat_map g l).
Proof.
  intros Hb. induction l as [|x l IH]; [reflexivity|]. simpl.
  destruct (fmap_values_inv _ _ (Hb x)) as (o & -> & Ho).
  rewrite bind_Ok.
  destruct (fmap_values_inv _ _ IH) as (r & -> & Hr).
  simpl. now rewrite values_app, Ho, Hr.
Qed.

Lemma enumerate_from_combine {A : Type} (l : list A) (s : Z) :
  enumerate_from s l
  = combine (map (fun k => (s + Z.of_nat k)%Z) (seq 0 (length l))) l.
Proof.
  revert s. induction l as [|x l IH]; intros s; simpl; [reflexivity|].
  f_equal; [f_equal; lia|].
  rewrite IH, <- seq_shift, map_map. f_equal.
  apply map_ext. intros k. lia.
Qed.

Lemma enumerate_combine {A : Type} (l : list A) (n : Z) :
  length l = Z.to_nat n -> enumerate l = combine (range n) l.
Proof.
  intros H. unfold enumerate, range.
  now rewrite enumerate_from_combine, H.
Qed.

Lemma combine_map_l {A B C : Type} (f : A -> B) (l1 : list A)
      (l2 : list C) :
  combine (map f l1) l2 = map (fun '(a, c) => (f a, c)) (combine l1 l2).
Proof.
  revert l2. induction l1 as [|a l1 IH]; intros [|c l2]; simpl;
    try reflexivity.
  now rewrite IH.
Qed.

(** The values of the line basis are the Jacobi values scaled by
    [sqrt(k + 1/2)]. *)
Lemma line_values (ord : Z) (p : R) :
  fmap values (line_ortho_loop ord p)
  = Ok (scale_by (sqrt_half_weights ord) (jacobi (ord - 1) 0 0 p)).
Proof.
  unfold line_ortho_loop.
  rewrite (for_each_enumerate_values _ _
             (fun i x => [sqrt (IZR i + 0.5) * x])) by reflexivity.
  f_equal. unfold scale_by, sqrt_half_weights, zip.
  rewrite (enumerate_combine _ ord) by (rewrite length_jacobi; lia).
  rewrite combine_map_l, map_map.
  generalize (combine (range ord) (jacobi (ord - 1) 0 0 p)) as l.
  induction l as [|[i x] l IH]; simpl; [reflexivity|]. now rewrite IH.
Qed.

Lemma outer_loop_values (pa pb : list R) :
  fmap values
    (for_each (enumerate pa) (fun '(i, pi) =>
       for_each (enumerate pb) (fun '(j, pj) =>
         Ok [([i; j], pi * pj)])))
  = Ok (outer pa pb).
Proof.
  rewrite (for_each_enumerate_values _ _
             (fun _ pi => map (fun pj => pi * pj) pb)).
  - now rewrite flat_map_enumerate.
  - intros i pi _.
    rewrite (for_each_enumerate_values _ _ (fun _ pj => [pi * pj]))
      by reflexivity.
    now rewrite flat_map_enumerate, flat_map_singleton.
Qed.

Lemma outer_assoc_loop_values (pa pb pc : list R) :
  fmap values
    (for_each (enumerate pa) (fun '(i, pi) =>
       for_each (enumerate pb) (fun '(j, pj) =>
         for_each (enumerate pc) (fun '(k, pk) =>
           Ok [([i; j; k], pi * pj * pk)]))))
  = Ok (outer (outer pa pb) pc).
Proof.
  rewrite (for_each_enumerate_values _ _
             (fun _ pi => flat_map (fun pj => map (fun pk => pi * pj * pk) pc)
                                   pb)).
  - rewrite flat_map_enumerate. f_equal. unfold outer.
    rewrite flat_map_flat_map. apply flat_map_ext. intros pi.
    now rewrite flat_map_map.
  - intros i pi _.
    rewrite (for_each_enumerate_values _ _
               (fun _ pj => map (fun pk => pi * pj * pk) pc)).
    + now rewrite flat_map_enumerate.
    + intros j pj _.
      rewrite (for_each_enumerate_values _ _ (fun _ pk => [pi * pj * pk]))
        by reflexivity.
      now rewrite flat_map_enumerate, flat_map_singleton.
Qed.

(** X9.  For an order of at least 1 the quadrilateral basis at
    [(p, q)] is the list of the products [a*b] of the line basis at
    [p] and at [q] ([a] outermost), and the hexahedral basis at
    [(p, q, r)] that of the products of the quadrilateral basis at
    [(p, q)] with the line basis at [r]. *)
Theorem tensor_bases_are_products
        (ord : Z) (pts0 : list pyval) (p q r : R) :
  (1 <= ord)%Z ->
  exists lp lq lr,
    ortho_basis_at_mp (mkBasis Line ord pts0) [Num p] = Ok lp
    /\ ortho_basis_at_mp (mkBasis Line ord pts0) [Num q] = Ok lq
    /\ ortho_basis_at_mp (mkBasis Line ord pts0) [Num r] = Ok lr
    /\ ortho_basis_at_mp (mkBasis Quad ord pts0) [Num p; Num q]
       = Ok (outer lp lq)
    /\ ortho_basis_at_mp (mkBasis Hex ord pts0) [Num p; Num q; Num r]
       = Ok (outer (outer lp lq) lr).
Proof.
  intros _.
  exists (scale_by (sqrt_half_weights ord) (jacobi (ord - 1) 0 0 p)),
         (scale_by (sqrt_half_weights ord) (jacobi (ord - 1) 0 0 q)),
         (scale_by (sqrt_half_weights ord) (jacobi (ord - 1) 0 0 r)).
  unfold ortho_basis_at_mp. cbn [cls order ortho_loop].
  rewrite !line_values. repeat split.
  - apply outer_loop_values.
  - apply outer_assoc_loop_values.
Qed.

Lemma tri_values (ord : Z) (p q : R) :
  exists a, collapse_simplex p q = Ok a
    /\ fmap values (tri_ortho_loop ord p q) = Ok (tri_values_at ord a q).
Proof.
  eexists. split; [apply collapse_simplex_value|].
  unfold tri_ortho_loop. rewrite collapse_simplex_value, bind_Ok.
  apply for_each_enumerate_values. intros i pi Hi. scalar_ok.
  apply (for_each_enumerate_values _ _
           (fun j pj => [tri_value q i j pi pj])).
  intros j pj Hj. scalar_ok. reflexivity.
Qed.

Lemma pri_values (ord : Z) (p q r : R) :
  exists a, collapse_simplex p q = Ok a
    /\ fmap values (pri_ortho_loop ord p q r)
       = Ok (outer (tri_values_at ord a q)
                   (scale_by (sqrt_half_weights ord)
                             (jacobi (ord - 1) 0 0 r))).
Proof.
  eexists. split; [apply collapse_simplex_value|].
  unfold pri_ortho_loop. rewrite collapse_simplex_value, bind_Ok.
  match goal with
  | |- fmap values (bind ?l _) = _ =>
      assert (Hpab : fmap values l
                     = Ok (tri_values_at ord
                             (if Req_dec_T q 1 then -1
                              else 2 * (1 + p) / (1 - q) - 1) q))
  end.
  { apply for_each_enumerate_values. intros i pi Hi. scalar_ok.
    apply (for_each_enumerate_values _ _
             (fun j pj => [tri_value q i j pi pj])).
    intros j pj Hj. cbv beta iota zeta. cbn [fmap bind values map snd].
    unfold tri_value. do 2 f_equal.
    field. apply powerRZ_2_nonzero. }
  apply fmap_values_inv in Hpab as (pab & -> & Hpab). rewrite bind_Ok.
  rewrite <- Hpab. unfold outer, values. rewrite flat_map_map.
  apply for_each_values. intros [ij pij].
  rewrite (for_each_enumerate_values _ _ (fun _ pk => [pij * pk]))
    by reflexivity.
  now rewrite flat_map_enumerate, flat_map_singleton.
Qed.

(** X10.  For an order of at least 1 the prism basis at [(p, q, r)]
    is the list of the products of the triangle basis at [(p, q)]
    with the line basis at [r], the triangle index outermost. *)
Theorem prism_basis_is_product
        (ord : Z) (pts0 : list pyval) (p q r : R) :
  (1 <= ord)%Z ->
  exists tpq lr,
    ortho_basis_at_mp (mkBasis Tri ord pts0) [Num p; Num q] = Ok tpq
    /\ ortho_basis_at_mp (mkBasis Line ord pts0) [Num r] = Ok lr
    /\ ortho_basis_at_mp (mkBasis Pri ord pts0) [Num p; Num q; Num r]
       = Ok (outer tpq lr).
Proof.
  intros _.
  destruct (tri_values ord p q) as (a & Ea & Et).
  destruct (pri_values ord p q r) as (a' & Ea' & Ep).
  rewrite Ea in Ea'. injection Ea' as <-.
  exists (tri_values_at ord a q),
         (scale_by (sqrt_half_weights ord) (jacobi (ord - 1) 0 0 r)).
  unfold ortho_basis_at_mp. cbn [cls order ortho_loop].
  now rewrite Et, Ep, line_values.
Qed.

Lemma tensor_bases_are_products_witness :
  (1 <= 2)%Z
  /\ exists lp lq lr,
       ortho_basis_at_mp (mkBasis Line 2 []) [Num 0] = Ok lp
       /\ ortho_basis_at_mp (mkBasis Line 2 []) [Num 1] = Ok lq
       /\ ortho_basis_at_mp (mkBasis Line 2 []) [Num (-1)] = Ok lr
       /\ ortho_basis_at_mp (mkBasis Quad 2 []) [Num 0; Num 1]
          = Ok (outer lp lq)
       /\ ortho_basis_at_mp (mkBasis Hex 2 []) [Num 0; Num 1; Num (-1)]
          = Ok (outer (outer lp lq) lr).
Proof.
  split; [lia|].
  exact (tensor_bases_are_products 2 [] 0 1 (-1) ltac:(lia)).
Defined.

Lemma prism_basis_is_product_witness :
  (1 <= 2)%Z
  /\ exists tpq lr,
       ortho_basis_at_mp (mkBasis Tri 2 []) [Num 0; Num 1] = Ok tpq
       /\ ortho_basis_at_mp (mkBasis Line 2 []) [Num (-1)] = Ok lr
       /\ ortho_basis_at_mp (mkBasis Pri 2 []) [Num 0; Num 1; Num (-1)]
          = Ok (outer tpq lr).
Proof.
  split; [lia|].
  exact (prism_basis_is_product 2 [] 0 1 (-1) ltac:(lia)).
Defined.

(** ** The first basis function *)

Lemma head_is_Ok {T : Type} (e : T) (o : list T) : head_is (Ok (e :: o)) e.
Proof. intros t H. injection H as <-. now exists o. Qed.

Lemma head_is_for_each {A T : Type} (x : A) (l : list A)
      (body : A -> result (list T)) (e : T) :
  head_is (body x) e -> head_is (for_each (x :: l) body) e.
Proof.
  intros Hb t. simpl.
  destruct (body x) as [o|err]; [|discriminate].
  destruct (Hb o eq_refl) as (o' & ->). rewrite bind_Ok.
  destruct (for_each l body) as [r|err]; [|discriminate].
  simpl. intros H. injection H as <-. now exists (o' ++ r).
Qed.

Lemma jacobi_head (n a b : Z) (z : R) :
  (0 <= n)%Z -> exists tl, jacobi n a b z = 1 :: tl.
Proof.
  intros H. unfold jacobi.
  destruct (Z.ltb_spec n 0); [lia|].
  destruct (n =? 0)%Z; eexists; reflexivity.
Qed.

Lemma jacobi_diff_head (n a b : Z) (z : R) :
  (0 <= n)%Z -> exists tl, jacobi_diff n a b z = 0 :: tl.
Proof.
  intros H. unfold jacobi_diff.
  destruct (Z.ltb_spec n 0); [lia|]. eexists; reflexivity.
Qed.

Lemma sqrt_half_weights_head (ord : Z) :
  (1 <= ord)%Z ->
  exists tl, sqrt_half_weights ord = sqrt (0 + 0.5) :: tl.
Proof.
  intros H. unfold sqrt_half_weights.
  destruct (range_head ord H) as [tl ->]. eexists; reflexivity.
Qed.

Lemma pyr_weights_head (ord : Z) :
  (1 <= ord)%Z ->
  exists tl,
    pyr_weights ord = Rpower 2 (- 0 - 0.25) * sqrt (0 + 0.5) :: tl.
Proof.
  intros H. unfold pyr_weights.
  destruct (range_head ord H) as [tl ->]. eexists; reflexivity.
Qed.

Ltac expose_heads Hord :=
  repeat first
    [ match goal with
      | |- context [jacobi_diff ?n ?a ?b ?z] =>
          let tl := fresh "tl" in
          destruct (jacobi_diff_head n a b z) as [tl ->]; [lia|]
      end
    | match goal with
      | |- context [jacobi ?n ?a ?b ?z] =>
          let tl := fresh "tl" in
          destruct (jacobi_head n a b z) as [tl ->]; [lia|]
      end
    | match goal with
      | |- context [sqrt_half_weights ?n] =>
          let tl := fresh "tl" in
          destruct (sqrt_half_weights_head n Hord) as [tl ->]
      end
    | match goal with
      | |- context [pyr_weights ?n] =>
          let tl := fresh "tl" in
          destruct (pyr_weights_head n Hord) as [tl ->]
      end ].

Ltac head_steps Hord :=
  repeat first
    [ apply head_is_Ok
    | progress scalar_ok
    | progress (change (0 + 0 >? 0)%Z with false;
                change (0 >? 0)%Z with false;
                cbv beta iota zeta)
    | progress expose_heads Hord
    | progress (unfold zip, scale_by, enumerate;
                cbn [combine map enumerate_from])
    | apply head_is_for_each; cbv beta iota zeta ].

Lemma head_is_bind {A T : Type} (r : result (list A))
      (k : list A -> result (list T)) (e1 : A) (e : T) :
  head_is r e1 -> (forall t', head_is (k (e1 :: t')) e) ->
  head_is (bind r k) e.
Proof.
  intros Hr Hk t. destruct r as [a|err]; [|discriminate].
  destruct (Hr a eq_refl) as (t' & ->). rewrite bind_Ok. apply Hk.
Qed.

Lemma sqrt2_sq : sqrt 2 * sqrt 2 = 2.
Proof. apply sqrt_sqrt. lra. Qed.

Lemma sqrt3_sq : sqrt 3 * sqrt 3 = 3.
Proof. apply sqrt_sqrt. lra. Qed.

Lemma sqrt_half_sq : sqrt (0 + 0.5) * sqrt (0 + 0.5) = / 2.
Proof. rewrite sqrt_sqrt; lra. Qed.

Lemma sqrt_half_pos : 0 < sqrt (0 + 0.5).
Proof. apply sqrt_lt_R0. lra. Qed.

Lemma pyr_weight_pos : 0 < Rpower 2 (- 0 - 0.25).
Proof. unfold Rpower. apply exp_pos. Qed.

Lemma pyr_weight_fourth :
  Rpower 2 (- 0 - 0.25) * Rpower 2 (- 0 - 0.25)
  * (Rpower 2 (- 0 - 0.25) * Rpower 2 (- 0 - 0.25)) = / 2.
Proof.
  rewrite <- !Rpower_plus.
  replace (- 0 - 0.25 + (- 0 - 0.25) + (- 0 - 0.25 + (- 0 - 0.25)))
    with (- (1)) by lra.
  rewrite Rpower_Ropp, Rpower_1 by lra. reflexivity.
Qed.

Ltac value_facts :=
  pose proof sqrt2_sq; pose proof sqrt3_sq; pose proof sqrt_half_sq;
  pose proof sqrt_half_pos; pose proof pyr_weight_pos;
  pose proof pyr_weight_fourth;
  assert (0 < sqrt 2) by (apply sqrt_lt_R0; lra);
  assert (0 < sqrt 3) by (apply sqrt_lt_R0; lra).

Lemma line_first_value (ord : Z) (p : R) :
  (1 <= ord)%Z ->
  exists v, head_is (line_ortho_loop ord p) ([0]%Z, v)
            /\ 0 < v /\ v * v = 1 / 2.
Proof.
  intros Hord. eexists. split.
  - unfold line_ortho_loop. head_steps Hord.
  - simpl. value_facts. split; nra.
Qed.

Lemma tri_first_value (ord : Z) (p q : R) :
  (1 <= ord)%Z ->
  exists v, head_is (tri_ortho_loop ord p q) ([0; 0]%Z, v)
            /\ 0 < v /\ v * v = 1 / 2.
Proof.
  intros Hord. eexists. split.
  - unfold tri_ortho_loop. rewrite collapse_simplex_value, bind_Ok.
    head_steps Hord.
  - simpl. value_facts. split; nra.
Qed.

Lemma quad_first_value (ord : Z) (p q : R) :
  (1 <= ord)%Z ->
  exists v, head_is (quad_ortho_loop ord p q) ([0; 0]%Z, v)
            /\ 0 < v /\ v * v = 1 / 4.
Proof.
  intros Hord. eexists. split.
  - unfold quad_ortho_loop. head_steps Hord.
  - simpl. value_facts. split; nra.
Qed.

Lemma tet_first_value (ord : Z) (p q r : R) :
  (1 <= ord)%Z ->
  exists v, head_is (tet_ortho_loop ord p q r) ([0; 0; 0]%Z, v)
            /\ 0 < v /\ v * v = 3 / 4.
Proof.
  intros Hord. eexists. split.
  - unfold tet_ortho_loop.
    rewrite collapse_tet_a_value, bind_Ok, collapse_simplex_value, bind_Ok.
    head_steps Hord.
  - simpl. rewrite sqrt_1. value_facts. split; nra.
Qed.

Lemma pri_first_value (ord : Z) (p q r : R) :
  (1 <= ord)%Z ->
  exists v, head_is (pri_ortho_loop ord p q r) ([0; 0; 0]%Z, v)
            /\ 0 < v /\ v * v = 1 / 4.
Proof.
  intros Hord. eexists. split.
  - unfold pri_ortho_loop. rewrite collapse_simplex_value, bind_Ok.
    eapply head_is_bind.
    + head_steps Hord.
    + intros t'. cbv zeta. apply head_is_for_each. cbv beta iota.
      head_steps Hord.
  - simpl. value_facts. split; nra.
Qed.

Lemma pyr_first_value (ord : Z) (p q r : R) :
  (1 <= ord)%Z ->
  exists v, head_is (pyr_ortho_loop ord p q r) ([0; 0; 0]%Z, v)
            /\ 0 < v /\ v * v = 3 / 8.
Proof.
  intros Hord. eexists. split.
  - unfold pyr_ortho_loop. rewrite !collapse_pyr_value, !bind_Ok.
    head_steps Hord.
  - simpl. value_facts.
    set (w := Rpower 2 (- 0 - 0.25)) in *.
    set (h := sqrt (0 + 0.5)) in *. split.
    + repeat apply Rmult_lt_0_compat; lra.
    + transitivity (sqrt 3 * sqrt 3 * (w * w * (w * w)) * (h * h * (h * h)));
        [ring|].
      match goal with H : w * w * (w * w) = _ |- _ => rewrite H end.
      match goal with H : h * h = _ |- _ => rewrite H end.
      match goal with H : sqrt 3 * sqrt 3 = _ |- _ => rewrite H end.
      lra.
Qed.

Lemma hex_first_value (ord : Z) (p q r : R) :
  (1 <= ord)%Z ->
  exists v, head_is (hex_ortho_loop ord p q r) ([0; 0; 0]%Z, v)
            /\ 0 < v /\ v * v = 1 / 8.
Proof.
  intros Hord. eexists. split.
  - unfold hex_ortho_loop. head_steps Hord.
  - simpl. value_facts.
    set (h := sqrt (0 + 0.5)) in *. split.
    + repeat apply Rmult_lt_0_compat; lra.
    + transitivity (h * h * (h * h) * (h * h)); [ring|].
      match goal with H : h * h = _ |- _ => rewrite H end. lra.
Qed.









Lemma ortho_loop_first_value (s : shape) (ord : Z) (c : list R) :
  (1 <= ord)%Z -> length c = ndims s ->
  exists idx v, head_is (ortho_loop s ord (coords c)) (idx, v)
                /\ 0 < v /\ v * v = constant_mode_sq s.
Proof.
  intros Hord Hc.
  destruct s; simpl in Hc;
    repeat (destruct c as [|? c]; try discriminate Hc);
    unfold coords; cbn [map ortho_loop constant_mode_sq]; eexists.
  - now apply line_first_value.
  - now apply tri_first_value.
  - now apply quad_first_value.
  - now apply tet_first_value.
  - now apply pri_first_value.
  - now apply pyr_first_value.
  - now apply hex_first_value.
Qed.


Lemma first_value_at (b : basis) (c : list R) :
  (1 <= order b)%Z -> length c = ndims (cls b) ->
  exists tl,
    ortho_basis_at_mp b (coords c)
    = Ok (sqrt (constant_mode_sq (cls b)) :: tl).
Proof.
  intros Hord Hc.
  destruct (ortho_basis_at_mp_ok b c Hc) as (t & Et & Ev & _).
  destruct (ortho_loop_first_value (cls b) (order b) c Hord Hc)
    as (idx & v & Hh & Hpos & Hsq).
  destruct (Hh t Et) as (t' & ->).
  exists (values t'). rewrite Ev. simpl. do 2 f_equal.
  rewrite <- Hsq. symmetry. apply sqrt_square. lra.
Qed.

(** X11.  For an order of at least 1 the first basis function is the
    same positive constant at every point: the square root of 1/2 on
    the line and the triangle, of 1/4 on the quadrilateral and the
    prism, of 3/4 on the tetrahedron, of 3/8 on the pyramid and of
    1/8 on the hexahedron. *)
Theorem first_basis_function_is_constant (b : basis) (c : list R) :
  (1 <= order b)%Z -> length c = ndims (cls b) ->
  exists tl,
    ortho_basis_at_mp b (coords c)
    = Ok (sqrt (constant_mode_sq (cls b)) :: tl).
Proof.
  intros Hord Hc.
  destruct (ortho_basis_at_mp_ok b c Hc) as (t & Et & Ev & _).
  destruct (ortho_loop_first_value (cls b) (order b) c Hord Hc)
    as (idx & v & Hh & Hpos & Hsq).
  destruct (Hh t Et) as (t' & ->).
  exists (values t'). rewrite Ev. simpl. do 2 f_equal.
  rewrite <- Hsq. symmetry. apply sqrt_square. lra.
Qed.

Lemma first_basis_function_is_constant_witness :
  (1 <= order tet2)%Z
  /\ length [1; -1; -1] = ndims (cls tet2)
  /\ exists tl,
       ortho_basis_at_mp tet2 (coords [1; -1; -1]) = Ok (sqrt (3 / 4) :: tl).
Proof.
  split; [exact tet2_order|]. split; [reflexivity|].
  exact (first_basis_function_is_constant tet2 [1; -1; -1] tet2_order
           eq_refl).
Defined.



(** ** Collapsed vertices and edges *)

Lemma collapse_simplex_at_1 (p : R) : collapse_simplex p 1 = Ok (-1).
Proof. rewrite collapse_simplex_value. now destruct (Req_dec_T 1 1). Qed.

Lemma collapse_pyr_at_1 (p : R) : collapse_pyr p 1 = Ok 0.
Proof. rewrite collapse_pyr_value. now destruct (Req_dec_T 1 1). Qed.

Lemma collapse_tet_a_at_edge (p q : R) : collapse_tet_a p q (- q) = Ok (-1).
Proof.
  rewrite collapse_tet_a_value. now destruct (Req_dec_T (- q) (- q)).
Qed.

(** X13.  Where a collapse is degenerate the generators do not depend
    on the coordinate that is collapsed away: on the edge [q = 1] of
    the triangle and the prism and on the edge [r = -q] of the
    tetrahedron the values and gradients are the same for every [p],
    and at the apex [r = 1] of the pyramid they are the same for every
    [p] and [q]. *)
Theorem degenerate_points_ignore_collapsed_coordinate
        (ord : Z) (pts0 : list pyval) (p p' q q' r : R) :
  ortho_basis_at_mp (mkBasis Tri ord pts0) [Num p; Num 1]
  = ortho_basis_at_mp (mkBasis Tri ord pts0) [Num p'; Num 1]
  /\ jac_ortho_basis_at_mp (mkBasis Tri ord pts0) [Num p; Num 1]
     = jac_ortho_basis_at_mp (mkBasis Tri ord pts0) [Num p'; Num 1]
  /\ ortho_basis_at_mp (mkBasis Pri ord pts0) [Num p; Num 1; Num r]
     = ortho_basis_at_mp (mkBasis Pri ord pts0) [Num p'; Num 1; Num r]
  /\ jac_ortho_basis_at_mp (mkBasis Pri ord pts0) [Num p; Num 1; Num r]
     = jac_ortho_basis_at_mp (mkBasis Pri ord pts0) [Num p'; Num 1; Num r]
  /\ ortho_basis_at_mp (mkBasis Tet ord pts0) [Num p; Num q; Num (- q)]
     = ortho_basis_at_mp (mkBasis Tet ord pts0) [Num p'; Num q; Num (- q)]
  /\ jac_ortho_basis_at_mp (mkBasis Tet ord pts0) [Num p; Num q; Num (- q)]
     = jac_ortho_basis_at_mp (mkBasis Tet ord pts0)
         [Num p'; Num q; Num (- q)]
  /\ ortho_basis_at_mp (mkBasis Pyr ord pts0) [Num p; Num q; Num 1]
     = ortho_basis_at_mp (mkBasis Pyr ord pts0) [Num p'; Num q'; Num 1]
  /\ jac_ortho_basis_at_mp (mkBasis Pyr ord pts0) [Num p; Num q; Num 1]
     = jac_ortho_basis_at_mp (mkBasis Pyr ord pts0)
         [Num p'; Num q'; Num 1].
Proof.
  unfold ortho_basis_at_mp, jac_ortho_basis_at_mp.
  cbn [cls order ortho_loop jac_ortho_loop].
  unfold tri_ortho_loop, tri_jac_ortho_loop, pri_ortho_loop,
    pri_jac_ortho_loop, tet_ortho_loop, tet_jac_ortho_loop,
    pyr_ortho_loop, pyr_jac_ortho_loop.
  rewrite !collapse_simplex_at_1, !collapse_pyr_at_1,
    !collapse_tet_a_at_edge.
  repeat split; reflexivity.
Qed.

(** ** Partition of unity *)

Lemma dot_const (c : R) (u v : list R) :
  length u = length v ->
  (forall j, (j < length u)%nat -> nth j u 0 = c) ->
  dot u v = c * fold_right Rplus 0 v.
Proof.
  revert v. induction u as [|x u IH]; intros [|y v] Hlen Hc;
    try discriminate Hlen.
  - unfold dot. simpl. ring.
  - rewrite dot_cons. simpl fold_right.
    rewrite (IH v) by
      (try (simpl in Hlen; lia); intros j Hj; apply (Hc (S j)); simpl; lia).
    pose proof (Hc 0%nat ltac:(simpl; lia)) as H0. simpl in H0. subst x.
    ring.
Qed.

Lemma nth_mmul (k : nat) (A X : list (list R)) (i m : nat) :
  (i < length A)%nat -> (m < k)%nat ->
  nth m (nth i (mmul k A X) []) 0 = dot (nth i A []) (col m X).
Proof.
  intros Hi Hm. unfold mmul.
  rewrite (nth_map_in _ A i [] []) by assumption.
  now rewrite nth_map_seq.
Qed.

Lemma wf_mat_row (n k : nat) (M : list (list R)) (i : nat) :
  wf_mat n k M -> (i < n)%nat -> length (nth i M []) = k.
Proof.
  intros [H1 H2] Hi. rewrite Forall_forall in H2. apply H2, nth_In. lia.
Qed.

(** A matrix whose first row is constant and which has a right
    inverse: the columns of every solution sum to the ratio of the
    right-hand side's first row to that constant. *)
Lemma column_sums_of_solution (n k : nat) (c : R) (A B X : list (list R)) :
  (0 < n)%nat -> nonsingular n A -> wf_mat n k X ->
  (forall j, (j < n)%nat -> nth j (nth 0 A []) 0 = c) ->
  (forall m, (m < k)%nat -> nth m (nth 0 B []) 0 = c) ->
  mmul k A X = B ->
  forall m, (m < k)%nat -> column_sum X m = 1.
Proof.
  intros Hn HA HX HrowA HrowB E m Hm.
  destruct (inverse_spec n A HA) as (HwfA' & _ & Hr).
  destruct HA as [HwfA _].
  assert (HlenA : length (nth 0 A []) = n) by now apply (wf_mat_row n n).
  assert (Hc : c <> 0).
  { intros ->.
    assert (H1 : nth 0 (nth 0 (mmul n A (inverse n A)) []) 0 = 1).
    { rewrite Hr. now rewrite nth_identity. }
    rewrite nth_mmul in H1 by (destruct HwfA; lia).
    rewrite (dot_const 0) in H1.
    - lra.
    - unfold col. rewrite length_map. destruct HwfA'. lia.
    - intros j Hj. apply HrowA. lia. }
  assert (H : dot (nth 0 A []) (col m X) = c).
  { rewrite <- nth_mmul with (k := k) by (destruct HwfA; lia).
    rewrite E. now apply HrowB. }
  rewrite (dot_const c) in H.
  - unfold column_sum. apply Rmult_eq_reg_l with c; [lra|assumption].
  - unfold col. rewrite length_map. destruct HX. lia.
  - intros j Hj. apply HrowA. lia.
Qed.

(** X14.  With a square nonsingular Vandermonde matrix and an order
    of at least 1, the nodal basis functions sum to one at every
    evaluation point: [nodal_basis_at] returns the truncated transpose
    of a solution [X] whose columns each sum to 1. *)
Theorem nodal_basis_sums_to_one
        (tol : R) (b : basis) (epts : list pyval)
        (ps cs : list (list R)) (A : list (list R)) :
  (1 <= order b)%Z ->
  promote (pts b) = tuples ps -> ps <> [] -> arity_ok b ps ->
  promote epts = tuples cs -> cs <> [] -> arity_ok b cs ->
  vdm tol b = Ok (Arr2 (nbasis b) (nbasis b) A) ->
  nonsingular (nbasis b) A ->
  exists X,
    nodal_basis_at tol b epts
    = Ok (chop tol (Arr2 (length cs) (nbasis b) (transpose (length cs) X)))
    /\ wf_mat (nbasis b) (length cs) X
    /\ forall m, (m < length cs)%nat -> column_sum X m = 1.
Proof.
  intros Hord Hps Hpne Hpar Hcs Hcne Hcar Hv HA.
  set (n := nbasis b) in *. set (k := length cs).
  set (c := chop_scalar tol (sqrt (constant_mode_sq (cls b)))).
  assert (Hn : (0 < n)%nat) by (now apply degrees_nonempty).
  (* the first row of the Vandermonde matrix *)
  destruct (ortho_basis_at_layout tol b (pts b) ps Hps Hpne Hpar)
    as (V & EV & SV & HV).
  unfold vdm in Hv. rewrite Hv in EV. injection EV as <-.
  simpl in SV. injection SV as Hnp.
  assert (HrowA : forall j, (j < n)%nat -> nth j (nth 0 A []) 0 = c).
  { intros j Hj.
    destruct (HV 0%nat j Hn ltac:(lia)) as (vals & Evals & Hget).
    destruct (first_value_at b (nth j ps []) Hord) as (tl & Etl).
    { apply arity_ok_nth; [assumption|lia]. }
    rewrite Etl in Evals. injection Evals as <-. exact Hget. }
  (* the right-hand side *)
  destruct (ortho_basis_at_layout tol b epts cs Hcs Hcne Hcar)
    as (W & EW & SW & HW).
  destruct W as [xs|n0 n1 B|n0 n1 n2 Bs]; simpl in SW; try discriminate SW.
  injection SW as -> ->. fold n k in EW, HW.
  assert (HrowB : forall m, (m < k)%nat -> nth m (nth 0 B []) 0 = c).
  { intros m Hm.
    destruct (HW 0%nat m Hn Hm) as (vals & Evals & Hget).
    destruct (first_value_at b (nth m cs []) Hord) as (tl & Etl).
    { now apply arity_ok_nth. }
    rewrite Etl in Evals. injection Evals as <-. exact Hget. }
  pose proof (ortho_basis_at_wf tol b epts n k B EW) as HwfB.
  exists (mmul k (inverse n A) B).
  assert (HwfX : wf_mat n k (mmul k (inverse n A) B)).
  { apply mmul_wf. now destruct (inverse_spec n A HA) as ((Hl & _) & _). }
  split.
  { unfold nodal_basis_at, vdm. rewrite Hv, EW, !bind_Ok.
    now rewrite solve_matrix by assumption. }
  split; [exact HwfX|].
  apply (column_sums_of_solution n k c A B); try assumption.
  now apply mmul_inverse_solves.
Qed.

(** ** Instances on the line with two modes *)

Lemma line2_sq_pts : promote (pts line2_sq) = tuples line_cs2.
Proof. reflexivity. Qed.

Lemma line2_sq_arity : arity_ok line2_sq line_cs2.
Proof. unfold arity_ok. repeat constructor. Qed.

Lemma line2_sq_arity3 : arity_ok line2_sq line_cs3.
Proof. unfold arity_ok. repeat constructor. Qed.

Lemma line2_sq_order : (1 <= order line2_sq)%Z.
Proof. simpl. lia. Qed.

Lemma two_points_nonempty : line_cs2 <> [].
Proof. discriminate. Qed.

Lemma three_points_nonempty : line_cs3 <> [].
Proof. discriminate. Qed.

Lemma line2_sq_vdm_nbasis :
  vdm double_resolution line2_sq
  = Ok (Arr2 (nbasis line2_sq) (nbasis line2_sq) line2_sq_vdm).
Proof. exact line2_sq_ortho_basis_at. Qed.

Lemma line2_sq_nonsingular_nbasis :
  nonsingular (nbasis line2_sq) line2_sq_vdm.
Proof. exact line2_sq_nonsingular. Qed.


Lemma nodal_basis_sums_to_one_witness :
  (1 <= order line2_sq)%Z
  /\ promote (pts line2_sq) = tuples line_cs2
  /\ line_cs2 <> []
  /\ arity_ok line2_sq line_cs2
  /\ promote line_pts3 = tuples line_cs3
  /\ line_cs3 <> []
  /\ arity_ok line2_sq line_cs3
  /\ vdm double_resolution line2_sq
     = Ok (Arr2 (nbasis line2_sq) (nbasis line2_sq) line2_sq_vdm)
  /\ nonsingular (nbasis line2_sq) line2_sq_vdm
  /\ exists X,
       nodal_basis_at double_resolution line2_sq line_pts3
       = Ok (chop double_resolution
               (Arr2 (length line_cs3) (nbasis line2_sq)
                     (transpose (length line_cs3) X)))
       /\ wf_mat (nbasis line2_sq) (length line_cs3) X
       /\ forall m, (m < length line_cs3)%nat -> column_sum X m = 1.
Proof.
  split; [exact line2_sq_order|].
  split; [exact line2_sq_pts|].
  split; [exact two_points_nonempty|].
  split; [exact line2_sq_arity|].
  split; [exact line_pts3_tuples|].
  split; [exact three_points_nonempty|].
  split; [exact line2_sq_arity3|].
  split; [exact line2_sq_vdm_nbasis|].
  split; [exact line2_sq_nonsingular_nbasis|].
  exact (nodal_basis_sums_to_one double_resolution line2_sq line_pts3
           line_cs2 line_cs3 line2_sq_vdm line2_sq_order
           line2_sq_pts two_points_nonempty line2_sq_arity
           line_pts3_tuples three_points_nonempty line2_sq_arity3
           line2_sq_vdm_nbasis line2_sq_nonsingular_nbasis).
Defined.

(** ** Scalars as points *)

Lemma scalars_as_tuples (xs : list R) :
  promote (map Num xs) = tuples (map (fun x => [x]) xs).
Proof. apply promote_scalars. Qed.

(** X15.  A list of scalars is evaluated as the list of the 1-tuples
    of its elements; for every shape other than the line a non-empty
    list of scalars therefore makes both batch evaluations raise
    [TypeError]. *)
Theorem scalar_points_need_the_line
        (tol : R) (b : basis) (x : R) (xs : list R) :
  cls b <> Line ->
  ortho_basis_at tol b (map Num (x :: xs)) = Raise TypeError
  /\ jac_ortho_basis_at tol b (map Num (x :: xs)) = Raise TypeError
  /\ promote (map Num (x :: xs)) = tuples (map (fun y => [y]) (x :: xs)).
Proof.
  intros Hs.
  assert (Hv : ortho_basis_at_mp b (coords [x]) = Raise TypeError).
  { unfold ortho_basis_at_mp. rewrite ortho_loop_wrong_arity; [reflexivity|].
    destruct (cls b); simpl; try lia. contradiction. }
  assert (Hg : jac_ortho_basis_at_mp b (coords [x]) = Raise TypeError).
  { unfold jac_ortho_basis_at_mp.
    rewrite jac_ortho_loop_wrong_arity; [reflexivity|].
    destruct (cls b); simpl; try lia. contradiction. }
  split; [|split; [|apply promote_scalars]].
  - unfold ortho_basis_at. rewrite promote_scalars, mapM_tuples.
    cbn [map mapM]. now rewrite Hv.
  - unfold jac_ortho_basis_at. rewrite promote_scalars, mapM_tuples.
    cbn [map mapM]. now rewrite Hg.
Qed.

Lemma scalar_points_need_the_line_witness :
  cls tri2 <> Line
  /\ ortho_basis_at double_resolution tri2 (map Num [0; 1]) = Raise TypeError
  /\ jac_ortho_basis_at double_resolution tri2 (map Num [0; 1])
     = Raise TypeError
  /\ promote (map Num [0; 1]) = tuples (map (fun y => [y]) [0; 1]).
Proof.
  assert (H : cls tri2 <> Line) by discriminate.
  split; [exact H|].
  exact (scalar_points_need_the_line double_resolution tri2 0 [1] H).
Defined.

(** ** The position of a basis function in the list *)

Lemma nth_flat_map_blocks {A B : Type} (f : A -> list B) (l : list A)
      (m i j : nat) (d : B) (a0 : A) :
  (forall x, In x l -> length (f x) = m) ->
  (i < length l)%nat -> (j < m)%nat ->
  nth (i * m + j) (flat_map f l) d = nth j (f (nth i l a0)) d.
Proof.
  revert i. induction l as [|x l IH]; intros i Hf Hi Hj; [simpl in Hi; lia|].
  simpl flat_map.
  assert (Hx : length (f x) = m) by (apply Hf; now left).
  destruct i as [|i].
  - simpl. now rewrite app_nth1 by lia.
  - rewrite app_nth2 by (rewrite Hx; simpl; lia).
    replace (S i * m + j - length (f x))%nat with (i * m + j)%nat
      by (rewrite Hx; simpl; lia).
    simpl nth at 2. apply IH; [|simpl in Hi; lia|assumption].
    intros y Hy. apply Hf. now right.
Qed.

Lemma nth_outer (u v : list R) (a b : nat) :
  (a < length u)%nat -> (b < length v)%nat ->
  nth (a * length v + b) (outer u v) 0 = nth a u 0 * nth b v 0.
Proof.
  intros Ha Hb. unfold outer.
  rewrite (nth_flat_map_blocks _ u (length v) a b 0 0);
    [|intros; now rewrite length_map|assumption|assumption].
  now rewrite (nth_map_in _ v b 0 0).
Qed.

Lemma length_outer (u v : list R) :
  length (outer u v) = (length u * length v)%nat.
Proof.
  unfold outer. induction u as [|a u IH]; simpl; [reflexivity|].
  now rewrite length_app, length_map, IH.
Qed.

Lemma length_flat_map_const {A B : Type} (f : A -> list B) (l : list A)
      (m : nat) :
  (forall x, length (f x) = m) ->
  length (flat_map f l) = (length l * m)%nat.
Proof.
  intros Hf. induction l as [|x l IH]; simpl; [reflexivity|].
  now rewrite length_app, Hf, IH.
Qed.

Lemma nth_range (n : Z) (i : nat) :
  (i < Z.to_nat n)%nat -> nth i (range n) 0%Z = Z.of_nat i.
Proof.
  intros H. unfold range.
  rewrite (nth_map_in _ _ i 0%Z 0%nat) by (now rewrite length_seq).
  now rewrite seq_nth.
Qed.

Lemma length_line_values (ord : Z) (p : R) :
  length (scale_by (sqrt_half_weights ord) (jacobi (ord - 1) 0 0 p))
  = Z.to_nat ord.
Proof. list_len. Qed.

(** X16.  For an order [n] of at least 1 and [i, j, k < n]: entry
    [i*n + j] of the quadrilateral basis is the product of entries [i]
    and [j] of the line basis at [p] and at [q], with degree [i + j];
    entry [(i*n + j)*n + k] of the hexahedral basis is the product of
    entries [i], [j], [k] of the line basis at [p], [q], [r], with
    degree [i + j + k]. *)
Theorem tensor_basis_positions
        (ord : Z) (pts0 : list pyval) (p q r : R) (i j k : nat) :
  (1 <= ord)%Z ->
  (i < Z.to_nat ord)%nat -> (j < Z.to_nat ord)%nat ->
  (k < Z.to_nat ord)%nat ->
  exists lp lq lr quad hex,
    ortho_basis_at_mp (mkBasis Line ord pts0) [Num p] = Ok lp
    /\ ortho_basis_at_mp (mkBasis Line ord pts0) [Num q] = Ok lq
    /\ ortho_basis_at_mp (mkBasis Line ord pts0) [Num r] = Ok lr
    /\ ortho_basis_at_mp (mkBasis Quad ord pts0) [Num p; Num q] = Ok quad
    /\ ortho_basis_at_mp (mkBasis Hex ord pts0) [Num p; Num q; Num r]
       = Ok hex
    /\ nth (i * Z.to_nat ord + j) quad 0 = nth i lp 0 * nth j lq 0
    /\ nth (i * Z.to_nat ord + j) (degrees (mkBasis Quad ord pts0)) 0%Z
       = Z.of_nat (i + j)
    /\ nth ((i * Z.to_nat ord + j) * Z.to_nat ord + k) hex 0
       = nth i lp 0 * nth j lq 0 * nth k lr 0
    /\ nth ((i * Z.to_nat ord + j) * Z.to_nat ord + k)
           (degrees (mkBasis Hex ord pts0)) 0%Z
       = Z.of_nat (i + j + k).
Proof.
  intros _ Hi Hj Hk.
  set (n := Z.to_nat ord) in *.
  set (lp := scale_by (sqrt_half_weights ord) (jacobi (ord - 1) 0 0 p)).
  set (lq := scale_by (sqrt_half_weights ord) (jacobi (ord - 1) 0 0 q)).
  set (lr := scale_by (sqrt_half_weights ord) (jacobi (ord - 1) 0 0 r)).
  assert (Hlp : length lp = n) by apply length_line_values.
  assert (Hlq : length lq = n) by apply length_line_values.
  assert (Hlr : length lr = n) by apply length_line_values.
  assert (Hrange : length (range ord) = n) by apply length_range.
  assert (EQ : fmap values (quad_ortho_loop ord p q) = Ok (outer lp lq))
    by apply outer_loop_values.
  assert (EH : fmap values (hex_ortho_loop ord p q r)
               = Ok (outer (outer lp lq) lr))
    by apply outer_assoc_loop_values.
  exists lp, lq, lr, (outer lp lq), (outer (outer lp lq) lr).
  unfold ortho_basis_at_mp. cbn [cls order ortho_loop].
  rewrite !line_values, EQ, EH.
  repeat split.
  - rewrite <- Hlq at 1. apply nth_outer; lia.
  - unfold degrees, quad_degrees. cbn [cls order].
    rewrite (nth_flat_map_blocks _ (range ord) n i j 0%Z 0%Z);
      [|intros; now rewrite length_map|lia|assumption].
    rewrite (nth_map_in _ _ j 0%Z 0%Z) by lia.
    rewrite !nth_range by assumption. lia.
  - rewrite <- Hlr at 2. rewrite nth_outer.
    + rewrite <- Hlq at 1. now rewrite nth_outer by lia.
    + rewrite length_outer, Hlp, Hlq. nia.
    + lia.
  - unfold degrees, hex_degrees. cbn [cls order].
    replace ((i * n + j) * n + k)%nat with (i * (n * n) + (j * n + k))%nat
      by lia.
    rewrite (nth_flat_map_blocks _ (range ord) (n * n) i (j * n + k)
               0%Z 0%Z); [| |lia|nia].
    + rewrite (nth_flat_map_blocks _ (range ord) n j k 0%Z 0%Z);
        [|intros; now rewrite length_map|lia|assumption].
      rewrite (nth_map_in _ _ k 0%Z 0%Z) by lia.
      rewrite !nth_range by assumption. lia.
    + intros x _. rewrite (length_flat_map_const _ _ n), Hrange;
        [reflexivity|]. intros y. now rewrite length_map.
Qed.

Lemma tensor_basis_positions_witness :
  (1 <= 3)%Z
  /\ (2 < Z.to_nat 3)%nat /\ (0 < Z.to_nat 3)%nat /\ (1 < Z.to_nat 3)%nat
  /\ exists lp lq lr quad hex,
       ortho_basis_at_mp (mkBasis Line 3 []) [Num 0] = Ok lp
       /\ ortho_basis_at_mp (mkBasis Line 3 []) [Num 1] = Ok lq
       /\ ortho_basis_at_mp (mkBasis Line 3 []) [Num (-1)] = Ok lr
       /\ ortho_basis_at_mp (mkBasis Quad 3 []) [Num 0; Num 1] = Ok quad
       /\ ortho_basis_at_mp (mkBasis Hex 3 []) [Num 0; Num 1; Num (-1)]
          = Ok hex
       /\ nth (2 * Z.to_nat 3 + 0) quad 0 = nth 2 lp 0 * nth 0 lq 0
       /\ nth (2 * Z.to_nat 3 + 0) (degrees (mkBasis Quad 3 [])) 0%Z
          = Z.of_nat (2 + 0)
       /\ nth ((2 * Z.to_nat 3 + 0) * Z.to_nat 3 + 1) hex 0
          = nth 2 lp 0 * nth 0 lq 0 * nth 1 lr 0
       /\ nth ((2 * Z.to_nat 3 + 0) * Z.to_nat 3 + 1)
              (degrees (mkBasis Hex 3 [])) 0%Z
          = Z.of_nat (2 + 0 + 1).
Proof.
  split; [lia|]. split; [simpl; lia|]. split; [simpl; lia|].
  split; [simpl; lia|].
  exact (tensor_basis_positions 3 [] 0 1 (-1) 2 0 1 ltac:(lia)
           ltac:(simpl; lia) ltac:(simpl; lia) ltac:(simpl; lia)).
Defined.

(** ** Gradients of the tensor-product bases *)






